(** * Circuit breaker with retry and exponential backoff (main.go)

    A shallow embedding of the request handler of [main.go]: the backoff
    policy [exponentialBackoff], the trip predicate [ReadyToTrip], the
    state-change observer, the bounded retry loop around
    [cb.Execute] and the mapping of the loop's outcome to an HTTP response. *)

From Stdlib Require Import ZArith Lia List String Bool Arith DecimalString.
Import ListNotations.

Local Open Scope string_scope.
Local Open Scope Z_scope.

(** ** IEEE-754 binary64 values, as far as [exponentialBackoff] needs them

    A finite value is [m * 2^e] with a signed integer significand; the
    representable ones have [|m| < 2^53] and [e >= -1074].  Arithmetic is
    exact arithmetic followed by [round] (round to nearest, ties to even,
    gradual underflow, overflow to infinity), which is what Go's float64
    operations do.  Signed zeros are not distinguished. *)
Module Float64.

Inductive t : Type :=
| Fin (m e : Z)
| PosInf
| NegInf
| NaN.

Definition prec : Z := 53.
Definition emin : Z := -1074.
Definition emax : Z := 1024.

(** Number of low bits of [m * 2^e] that do not fit the format. *)
Definition excess (m e : Z) : Z :=
  Z.max 0 (Z.max (Z.log2 (Z.abs m) + 1 - prec) (emin - e)).

(** The significand after dropping [sh] bits, rounding to nearest, ties to
    even. *)
Definition round_sig (a sh : Z) : Z :=
  if sh <=? 0 then a
  else
    let q := a / 2 ^ sh in
    let r := a mod 2 ^ sh in
    let half := 2 ^ (sh - 1) in
    if (half <? r) || ((half =? r) && Z.odd q) then q + 1 else q.

Definition round (m e : Z) : t :=
  let sh := excess m e in
  let q := round_sig (Z.abs m) sh in
  if (0 <? q) && (emax <=? Z.log2 q + (e + sh)) then
    (if m <? 0 then NegInf else PosInf)
  else Fin (Z.sgn m * q) (e + sh).

(** [float64(n)] for an integer [n]. *)
Definition of_int (n : Z) : t := round n 0.

Definition mul (x y : t) : t :=
  match x, y with
  | NaN, _ | _, NaN => NaN
  | Fin m1 e1, Fin m2 e2 => round (m1 * m2) (e1 + e2)
  | Fin m _, PosInf | PosInf, Fin m _ =>
      if m =? 0 then NaN else if m <? 0 then NegInf else PosInf
  | Fin m _, NegInf | NegInf, Fin m _ =>
      if m =? 0 then NaN else if m <? 0 then PosInf else NegInf
  | PosInf, PosInf | NegInf, NegInf => PosInf
  | PosInf, NegInf | NegInf, PosInf => NaN
  end.

(** [x > y]; false as soon as one side is NaN. *)
Definition gtb (x y : t) : bool :=
  match x, y with
  | NaN, _ | _, NaN => false
  | PosInf, PosInf => false
  | PosInf, _ => true
  | _, PosInf => false
  | NegInf, _ => false
  | Fin _ _, NegInf => true
  | Fin m1 e1, Fin m2 e2 =>
      let c := Z.min e1 e2 in
      m2 * 2 ^ (e2 - c) <? m1 * 2 ^ (e1 - c)
  end.

(** The integer part of a finite value, truncated toward zero. *)
Definition trunc (m e : Z) : Z :=
  if 0 <=? e then m * 2 ^ e else Z.quot m (2 ^ (- e)).

Definition min_int64 : Z := - 2 ^ 63.
Definition max_int64 : Z := 2 ^ 63 - 1.

(** Conversion to [int64] as in [time.Duration(f)]: truncation toward zero;
    a value that does not fit (or is not finite) gives the "integer
    indefinite" value of amd64. *)
Definition to_int64 (x : t) : Z :=
  match x with
  | Fin m e =>
      let r := trunc m e in
      if (min_int64 <=? r) && (r <=? max_int64) then r else min_int64
  | _ => min_int64
  end.

(** [math.Pow(2, y)] for an integral [y]: exact while [2^y] is representable,
    [+Inf] from [2^1024] on and [0] below the smallest subnormal [2^-1074]
    ([2^-1075] is a tie and rounds to the even neighbour, zero). *)
Definition pow2 (y : t) : t :=
  match y with
  | NaN => NaN
  | PosInf => PosInf
  | NegInf => Fin 0 0
  | Fin m e =>
      let n := trunc m e in
      if emax <=? n then PosInf
      else if n <? emin then Fin 0 0
      else Fin 1 n
  end.

(** The values [rand.Float64] can return: a float64 in [[0.0, 1.0)]. *)
Definition unit_interval (r : t) : Prop :=
  match r with
  | Fin m e => 0 <= m < 2 ^ prec /\ emin <= e /\ (0 < m -> m < 2 ^ (- e))
  | _ => False
  end.

End Float64.

(** ** The backoff policy *)

Definition Second : Z := 1000000000.

(** Lines 41-46 of [exponentialBackoff]: the value of [backoff] once it
    has been capped. *)
Definition cappedBackoff (attempt : Z) : Float64.t :=
  let min := Float64.of_int Second in
  let max := Float64.of_int (30 * Second) in
  let backoff := Float64.mul min (Float64.pow2 (Float64.of_int attempt)) in
  if Float64.gtb backoff max then max else backoff.

(** [exponentialBackoff(attempt)]: main.go lines 40-49; [r] is the value
    that the call of [rand.Float64()] returns. *)
Definition exponentialBackoff (attempt : Z) (r : Float64.t) : Z :=
  let backoff := cappedBackoff attempt in
  let jitter := Float64.mul r backoff in
  Float64.to_int64 jitter.

(** The delay before jitter, [min(minDelay * 2^attempt, maxDelay)], in
    nanoseconds, for a non-negative attempt. *)
Definition computedDelay (attempt : Z) : Z :=
  Z.min (Second * 2 ^ attempt) (30 * Second).


(** ** Metrics and the two callbacks of [gobreaker.Settings] *)

(** [requestCount]: a counter per value of the label [state]. *)
Definition CounterVec : Type := string -> nat.

Definition NewCounterVec : CounterVec := fun _ => O.

(** [requestCount.WithLabelValues(l).Inc()] *)
Definition Inc (l : string) (c : CounterVec) : CounterVec :=
  fun l' => if String.eqb l l' then S (c l') else c l'.

(** What the callbacks can touch: the metric and standard output. *)
Record Env : Type := mkEnv {
  requestCount : CounterVec;
  stdout : list string
}.

Definition incRequestCount (l : string) (e : Env) : Env :=
  mkEnv (Inc l (requestCount e)) (stdout e).

Definition Printf (line : string) (e : Env) : Env :=
  mkEnv (requestCount e) (stdout e ++ [line])%list.

(** [gobreaker.State]. *)
Inductive State : Type := StateClosed | StateHalfOpen | StateOpen.

(** [State.String()] of gobreaker, whose package is not part of the
    sources: the three names it prints. *)
Definition State_String (s : State) : string :=
  match s with
  | StateClosed => "closed"
  | StateHalfOpen => "half-open"
  | StateOpen => "open"
  end.

(** [gobreaker.Counts], the argument of [ReadyToTrip]. *)
Record Counts : Type := mkCounts {
  Requests : Z;
  TotalSuccesses : Z;
  TotalFailures : Z;
  ConsecutiveSuccesses : Z;
  ConsecutiveFailures : Z
}.

(** The [ReadyToTrip] closure of [main]: main.go lines 61-65. *)
Definition ReadyToTrip (counts : Counts) (e : Env) : bool * Env :=
  let e := incRequestCount "failure" e in
  (3 <? ConsecutiveFailures counts, e).

(** The [OnStateChange] closure of [main]: main.go lines 66-69. *)
Definition OnStateChange (name : string) (from to : State) (e : Env) : Env :=
  let e :=
    Printf ("Circuit Breaker " ++ name ++ " changed from "
            ++ State_String from ++ " to " ++ State_String to) e in
  incRequestCount (State_String to) e.

(** [gobreaker.Settings], with the fields [main] sets. *)
Record Settings : Type := mkSettings {
  Name : string;
  MaxRequests : Z;
  Interval : Z;
  Timeout : Z;
  readyToTrip : Counts -> Env -> bool * Env;
  onStateChange : string -> State -> State -> Env -> Env
}.

(** The settings built in [main]: main.go lines 56-70. *)
Definition settings : Settings :=
  mkSettings "API Circuit Breaker" 5 (60 * Second) (30 * Second)
             ReadyToTrip OnStateChange.

(** ** The request handler of [/api]: main.go lines 73-100 *)

(** The failures [cb.Execute] can return: the two sentinel errors of the
    breaker and a failure of the operation itself. *)
Inductive error : Type :=
| ErrOpenState
| ErrTooManyRequests
| OperationError (msg : string).

(** What [cb.Execute] returns, [(result, err)]; [None] is [nil]. *)
Definition ExecResult : Type := (option Z * option error)%type.

(** What the handler does, in order: the calls it makes on the breaker (in
    iteration [i], with what the call returned), the metric, the timer and
    the [http.ResponseWriter]. *)
Inductive Action : Type :=
| CallExecute (i : Z) (res : ExecResult)
| IncRequestCount (l : string)
| TimeSleep (d : Z)
| HttpError (msg : string) (code : Z)
| ResponseWrite (body : string).

Definition StatusServiceUnavailable : Z := 503.

Definition attempts : Z := 5.

(** [fmt.Sprintf("%v", result)] for a result that is [nil] or an [int]. *)
Definition Sprint (result : option Z) : string :=
  match result with
  | None => "<nil>"
  | Some n => NilZero.string_of_int (Z.to_int n)
  end.

Section Handler.

(** The state of the process and of everything it talks to. *)
Context {W : Type}.

(** [cb.Execute(func() (interface{}, error) { return callExternalAPI() })] *)
Variable Execute : W -> ExecResult * W.
(** [rand.Float64()] *)
Variable RandFloat64 : W -> Float64.t * W.
(** [time.Sleep(d)] *)
Variable timeSleep : Z -> W -> W.
(** [requestCount.WithLabelValues(l).Inc()] *)
Variable incMetric : string -> W -> W.

(** The [for] loop of lines 81-91, entered with [n] iterations left, that
    is with [i = attempts - n]; [res] is the current [(result, err)]. *)
Fixpoint retryLoop (n : nat) (i : Z) (res : ExecResult) (w : W)
  : ExecResult * list Action * W :=
  match n with
  | O => (res, [], w)
  | S n' =>
      let '(res, w) := Execute w in
      match snd res with
      | None =>
          (res, [CallExecute i res; IncRequestCount "success"],
           incMetric "success" w)
      | Some _ =>
          let '(f, w) := RandFloat64 w in
          let d := exponentialBackoff i f in
          let w := timeSleep d w in
          let '(res', tr, w) := retryLoop n' (i + 1) res w in
          (res', CallExecute i res :: TimeSleep d :: tr, w)
      end
  end.

(** Lines 77-91: the variables [result], [err], [attempts] and the loop. *)
Definition retry (w : W) : ExecResult * list Action * W :=
  retryLoop (Z.to_nat attempts) 0 (None, None) w.

(** The whole handler. *)
Definition handler (w : W) : list Action * W :=
  let '(res, tr, w) := retry w in
  match snd res with
  | Some _ =>
      (tr ++ [IncRequestCount "failure";
              HttpError "Service Unavailable" StatusServiceUnavailable],
       incMetric "failure" w)%list
  | None =>
      (tr ++ [ResponseWrite ("Request succeeded: " ++ Sprint (fst res))],
       w)%list
  end.

End Handler.

(** Counting in a trace. *)
Definition isCallExecute (a : Action) : bool :=
  match a with CallExecute _ _ => true | _ => false end.

Definition isTimeSleep (a : Action) : bool :=
  match a with TimeSleep _ => true | _ => false end.

Definition isResponse (a : Action) : bool :=
  match a with HttpError _ _ | ResponseWrite _ => true | _ => false end.

Definition isInc (l : string) (a : Action) : bool :=
  match a with IncRequestCount l' => String.eqb l l' | _ => false end.

Definition count (p : Action -> bool) (tr : list Action) : nat :=
  List.length (List.filter p tr).

(** ** The circuit breaker *)

(** Modelled from the spec: the operations on the counters of
    [gobreaker.Counts] (spec section 3): all-zero counters, one more
    request, and an outcome, which resets the streak of the opposite
    outcome. *)
Definition zeroCounts : Counts := mkCounts 0 0 0 0 0.

Definition onRequest (c : Counts) : Counts :=
  mkCounts (Requests c + 1) (TotalSuccesses c) (TotalFailures c)
           (ConsecutiveSuccesses c) (ConsecutiveFailures c).

Definition onSuccess (c : Counts) : Counts :=
  mkCounts (Requests c) (TotalSuccesses c + 1) (TotalFailures c)
           (ConsecutiveSuccesses c + 1) 0.

Definition onFailure (c : Counts) : Counts :=
  mkCounts (Requests c) (TotalSuccesses c) (TotalFailures c + 1)
           0 (ConsecutiveFailures c + 1).

(** Modelled from the spec: the state of [gobreaker.CircuitBreaker], whose
    package is not part of the sources (spec section 3): the state, the
    generation, the expiry of the Open state and the counters;
    [windowStart] is the time of the last reset of the counters while
    Closed, which the rolling interval is measured from. *)
Record CircuitBreaker : Type := mkCB {
  state : State;
  generation : Z;
  expiry : Z;
  counts : Counts;
  windowStart : Z
}.

(** Modelled from the spec: [gobreaker.NewCircuitBreaker], Closed with
    all-zero counters (spec section 3). *)
Definition NewCircuitBreaker (now : Z) : CircuitBreaker :=
  mkCB StateClosed 0 0 zeroCounts now.

(** Modelled from the spec: a state transition of the breaker (spec section
    4.1): the generation is incremented, entering Open records
    [expiry = now + openTimeout], entering Half-Open or Closed resets the
    counters, and the state-change observer is fired. *)
Definition setState (st : Settings) (to : State) (now : Z)
  (b : CircuitBreaker) (e : Env) : CircuitBreaker * Env :=
  (mkCB to (generation b + 1)
        (match to with StateOpen => now + Timeout st | _ => expiry b end)
        (match to with StateOpen => counts b | _ => zeroCounts end)
        (match to with StateClosed => now | _ => windowStart b end),
   onStateChange st (Name st) (state b) to e).

(** Modelled from the spec: the rolling reset of the counters while Closed
    (spec sections 3 and 4.1): once the interval has elapsed since the last
    reset, the counters restart from zero in a new measurement window;
    an interval of zero means never.  The reset is no state transition and
    fires no event, but it starts a new generation of the counters, so that
    the outcome of a call admitted in the window before is discarded
    rather than counted in the new one (spec section 4.1, the stale
    generation). *)
Definition rollWindow (st : Settings) (now : Z) (b : CircuitBreaker)
  : CircuitBreaker :=
  match state b with
  | StateClosed =>
      if negb (Interval st =? 0) && (Interval st <=? now - windowStart b)
      then mkCB StateClosed (generation b + 1) (expiry b) zeroCounts now
      else b
  | _ => b
  end.

Definition withCounts (c : Counts) (b : CircuitBreaker) : CircuitBreaker :=
  mkCB (state b) (generation b) (expiry b) c (windowStart b).

(** Modelled from the spec: the admission decision of [Execute] (spec
    section 4.1), on the state the breaker has at [now]: Closed, first
    brought to the current measurement window, admits; Open rejects before
    [expiry] and from [expiry] on moves to Half-Open and admits the call as
    a probe; Half-Open admits up to [MaxRequests] probes (zero: no limit).
    An admitted call is counted as a request and is given the
    generation. *)
Definition beforeRequest (st : Settings) (now : Z) (b : CircuitBreaker)
  (e : Env) : (Z + error) * CircuitBreaker * Env :=
  match state b with
  | StateClosed =>
      let b := rollWindow st now b in
      (inl (generation b), withCounts (onRequest (counts b)) b, e)
  | StateOpen =>
      if expiry b <=? now then
        let '(b, e) := setState st StateHalfOpen now b e in
        (inl (generation b), withCounts (onRequest (counts b)) b, e)
      else (inr ErrOpenState, b, e)
  | StateHalfOpen =>
      if (MaxRequests st =? 0) || (Requests (counts b) <? MaxRequests st)
      then (inl (generation b), withCounts (onRequest (counts b)) b, e)
      else (inr ErrTooManyRequests, b, e)
  end.

(** Modelled from the spec: how [Execute] applies an outcome (spec section
    4.1), on the state the breaker has at [now], that is with a Closed
    breaker first brought to the current measurement window: nothing when
    the generation has changed; in Closed the counters are updated and
    [readyToTrip], evaluated after a failure only, trips to Open; in
    Half-Open a failure returns to Open and the [MaxRequests]-th
    consecutive success closes the breaker. *)
Definition afterRequest (st : Settings) (before : Z) (success : bool)
  (now : Z) (b : CircuitBreaker) (e : Env) : CircuitBreaker * Env :=
  let b := rollWindow st now b in
  if negb (generation b =? before) then (b, e)
  else
    match state b with
    | StateClosed =>
        if success then (withCounts (onSuccess (counts b)) b, e)
        else
          let b := withCounts (onFailure (counts b)) b in
          let '(trip, e) := readyToTrip st (counts b) e in
          if trip then setState st StateOpen now b e else (b, e)
    | StateHalfOpen =>
        if success then
          let b := withCounts (onSuccess (counts b)) b in
          if MaxRequests st <=? ConsecutiveSuccesses (counts b)
          then setState st StateClosed now b e
          else (b, e)
        else setState st StateOpen now b e
    | StateOpen => (b, e)
    end.

(** ** The process: clock, metric, breaker, downstream API, random source *)

(** One answer of the downstream API: how long the call takes, from the
    reading of the clock at its admission by the breaker to the reading at
    its outcome, and the status code, or [None] when [http.Get] fails. *)
Record ApiReply : Type := mkReply {
  latency : Z;
  statusCode : option Z
}.

(** The clock is read by the breaker only; [overshoot] is the time that
    passes from one reading of the clock to the next across a call of
    [time.Sleep], beyond the duration asked for: [time.Sleep] pauses for at
    least the duration, and the steps of the handler around it take time
    too. *)
Record World : Type := mkWorld {
  now : Z;                      (* monotonic clock, nanoseconds *)
  env : Env;                    (* requestCount and standard output *)
  cb : CircuitBreaker;          (* the breaker built in main *)
  apiCalls : nat;               (* calls of callExternalAPI so far *)
  draws : nat;                  (* calls of rand.Float64 so far *)
  naps : nat;                   (* calls of time.Sleep so far *)
  api : nat -> ApiReply;        (* the answer to the n-th call *)
  rnd : nat -> Float64.t;       (* the n-th random number *)
  overshoot : nat -> Z          (* the delay of the n-th wake-up *)
}.

Definition setBreaker (b : CircuitBreaker) (e : Env) (w : World) : World :=
  mkWorld (now w) e b (apiCalls w) (draws w) (naps w) (api w) (rnd w)
          (overshoot w).

(** [callExternalAPI()], which [main] sets to [defaultCallExternalAPI]
    (main.go lines 30-37); what the server answers is read from [api]. *)
Definition callExternalAPI (w : World) : (Z * option error) * World :=
  let reply := api w (apiCalls w) in
  let w := mkWorld (now w + Z.max 0 (latency reply)) (env w) (cb w)
                   (S (apiCalls w)) (draws w) (naps w) (api w) (rnd w)
                   (overshoot w) in
  match statusCode reply with
  | Some code => ((code, None), w)
  | None => ((0, Some (OperationError "Get failed")), w)
  end.

(** The closure given to [cb.Execute]: main.go lines 82-84. *)
Definition request (w : World) : ExecResult * World :=
  let '((code, err), w) := callExternalAPI w in ((Some code, err), w).

(** Modelled from the spec: [CircuitBreaker.Execute] (spec section 4.1):
    admission, at most one synchronous call of the operation, then the
    outcome applied under the generation captured at admission.  A rejected
    call returns the sentinel failure and does not run the operation. *)
Definition Execute (st : Settings) (req : World -> ExecResult * World)
  (w : World) : ExecResult * World :=
  let '(adm, b, e) := beforeRequest st (now w) (cb w) (env w) in
  let w := setBreaker b e w in
  match adm with
  | inr err => ((None, Some err), w)
  | inl gen =>
      let '(res, w) := req w in
      let success := match snd res with None => true | Some _ => false end in
      let '(b, e) := afterRequest st gen success (now w) (cb w) (env w) in
      (res, setBreaker b e w)
  end.

(** [rand.Float64()] *)
Definition randFloat64 (w : World) : Float64.t * World :=
  (rnd w (draws w),
   mkWorld (now w) (env w) (cb w) (apiCalls w) (S (draws w)) (naps w)
           (api w) (rnd w) (overshoot w)).

(** [time.Sleep(d)]: pauses for at least [d], and returns at once when
    [d <= 0]; how much later than asked the clock is read again is up to
    the scheduler. *)
Definition sleep (d : Z) (w : World) : World :=
  mkWorld (now w + Z.max 0 d + Z.max 0 (overshoot w (naps w))) (env w)
          (cb w) (apiCalls w) (draws w) (S (naps w)) (api w) (rnd w)
          (overshoot w).

Definition incMetric (l : string) (w : World) : World :=
  setBreaker (cb w) (incRequestCount l (env w)) w.

(** [cb.Execute(...)] as the handler calls it. *)
Definition cbExecute : World -> ExecResult * World := Execute settings request.

(** The handler and its loop in the process. *)
Definition serveAPI : World -> list Action * World :=
  handler cbExecute randFloat64 sleep incMetric.

Definition retryAPI : World -> ExecResult * list Action * World :=
  retry cbExecute randFloat64 sleep incMetric.

(** The process right after [main] has built the breaker, with the delays
    of the wake-ups to come. *)
Definition startWith (api : nat -> ApiReply) (rnd : nat -> Float64.t)
  (overshoot : nat -> Z) : World :=
  mkWorld 0 (mkEnv NewCounterVec []) (NewCircuitBreaker 0) 0 0 0 api rnd
          overshoot.

(** The same on a machine that wakes up on time. *)
Definition start (api : nat -> ApiReply) (rnd : nat -> Float64.t) : World :=
  startWith api rnd (fun _ => 0).

(** Two answers of the downstream API: [http.Get] fails; status 200. *)
Definition apiDown : ApiReply := mkReply 0 None.
Definition apiUp : ApiReply := mkReply 0 (Some 200).

(** ** Traces of the loop *)

(** [err != nil] *)
Definition failed (r : ExecResult) : bool :=
  match snd r with Some _ => true | None => false end.

(** An action of an iteration that is retried: a failed attempt or a
    sleep. *)
Definition retried (a : Action) : bool :=
  match a with
  | CallExecute _ r => failed r
  | TimeSleep _ => true
  | _ => false
  end.

(** The shape of a run of the loop entered at iteration [i] with [n]
    iterations left and [(result, err) = r0], ending with
    [(result, err) = res]: a failed attempt is followed by a sleep of
    [exponentialBackoff(i)], a successful one by the [success] increment and
    nothing else. *)
Inductive run : nat -> Z -> ExecResult -> ExecResult -> list Action -> Prop :=
| run_done i r0 : run O i r0 r0 []
| run_ok n i r0 res :
    failed res = false ->
    run (S n) i r0 res [CallExecute i res; IncRequestCount "success"]
| run_retry n i r0 r res f tr :
    failed r = true ->
    run n (i + 1) r res tr ->
    run (S n) i r0 res
        (CallExecute i r :: TimeSleep (exponentialBackoff i f) :: tr).

Definition opFailure : ExecResult :=
  (Some 0, Some (OperationError "Get failed")).

(** The world in which the loop makes its next attempt after a failed one. *)
Definition backedOff (i : Z) (w : World) : World :=
  sleep (exponentialBackoff i (rnd w (draws w))) (snd (randFloat64 w)).

(** The downstream API is down; every random number is one half. *)
Definition apiAlwaysDown : World :=
  start (fun _ => apiDown) (fun _ => Float64.Fin 1 (-1)).

(** The downstream API fails twice and then answers 200. *)
Definition apiRecovers : World :=
  start (fun n => if (n <? 2)%nat then apiDown else apiUp)
        (fun _ => Float64.Fin 1 (-1)).

(** The process after one request served while the API is down. *)
Definition afterOutage : World := snd (serveAPI apiAlwaysDown).


(** ** Further definitions for the properties of the whole program *)

(** The durations passed to [time.Sleep], in order. *)
Fixpoint sleeps (tr : list Action) : list Z :=
  match tr with
  | [] => []
  | TimeSleep d :: tr => d :: sleeps tr
  | _ :: tr => sleeps tr
  end.

(** The time a run spends in [time.Sleep]. *)
Definition totalSleep (tr : list Action) : Z :=
  fold_right Z.add 0 (sleeps tr).

(** The state-change observer called for each transition of [ts] in turn. *)
Definition observe (name : string) (ts : list (State * State)) (e : Env)
  : Env :=
  fold_left (fun e t => OnStateChange name (fst t) (snd t) e) ts e.

(** The transitions of [ts] that enter a state printed as [l]. *)
Definition entering (l : string) (ts : list (State * State)) : nat :=
  List.length (filter (fun t => String.eqb (State_String (snd t)) l) ts).

(** [n] calls of [cb.Execute] in a row, with the settings [st]. *)
Fixpoint executeN (st : Settings) (n : nat) (w : World) : World :=
  match n with
  | O => w
  | S n' => snd (Execute st request (executeN st n' w))
  end.

(** The number of failed answers that end the first [m] answers from
    position [c] of the script. *)
Fixpoint failStreak (script : nat -> ApiReply) (c m : nat) : nat :=
  match m with
  | O => O
  | S m' =>
      match statusCode (script (c + m')%nat) with
      | None => S (failStreak script c m')
      | Some _ => O
      end
  end.

(** An attempt rejected by the open breaker, or a sleep. *)
Definition isRejection (a : Action) : bool :=
  match a with
  | CallExecute _ (None, Some ErrOpenState) => true
  | TimeSleep _ => true
  | _ => false
  end.

(** The settings of [TestCircuitBreakerV3]: main_test.go lines 32-40; no
    observer, a 5 s open timeout, and a trip predicate without the
    metric. *)
Definition testSettings : Settings :=
  mkSettings "API Circuit Breaker" 5 (60 * Second) (5 * Second)
             (fun counts e => (3 <? ConsecutiveFailures counts, e))
             (fun _ _ _ e => e).

(** Every number the random source of the process will return is in
    [[0, 1)], as [rand.Float64] promises. *)
Definition validRandom (w : World) : Prop :=
  forall k, Float64.unit_interval (rnd w k).

(** The breaker of the test after the four failures of [FailedRequests] and
    the wait of [Timeout + 1s] (main_test.go lines 60-67 and 97); the mock
    server answers 200 from then on. *)
Definition testOutage : World :=
  sleep (6 * Second)
        (executeN testSettings 4
                  (start (fun k => if (k <? 4)%nat then apiDown else apiUp)
                         (fun _ => Float64.Fin 1 (-1)))).

(** The time the downstream API takes to answer [n] calls from position
    [c] of the script. *)
Fixpoint latencies (script : nat -> ApiReply) (c n : nat) : Z :=
  match n with
  | O => 0
  | S n' => latencies script c n' + Z.max 0 (latency (script (c + n')%nat))
  end.


(** ** Further definitions for the loop and the clock *)

Section Attempts.

Context {W : Type}.
Variable Execute : W -> ExecResult * W.
Variable RandFloat64 : W -> Float64.t * W.
Variable timeSleep : Z -> W -> W.

(** The first [k] iterations from iteration [i] when each of their
    attempts fails: every failed attempt is followed by one sleep of
    [exponentialBackoff] of its iteration, on the number drawn after the
    attempt.  The result is the last [(result, err)], what was done and the
    state reached; there is none when one of the attempts succeeds. *)
Fixpoint failedAttempts (k : nat) (i : Z) (r0 : ExecResult) (w : W)
  : option (ExecResult * list Action * W) :=
  match k with
  | O => Some (r0, [], w)
  | S k' =>
      let '(res, w1) := Execute w in
      match snd res with
      | None => None
      | Some _ =>
          let '(f, w2) := RandFloat64 w1 in
          let d := exponentialBackoff i f in
          match failedAttempts k' (i + 1) res (timeSleep d w2) with
          | Some (r, tr, w') =>
              Some (r, CallExecute i res :: TimeSleep d :: tr, w')
          | None => None
          end
      end
  end.

End Attempts.

(** An attempt in which the operation ran and failed. *)
Definition isOperationFailure (a : Action) : bool :=
  match a with
  | CallExecute _ (_, Some (OperationError _)) => true
  | _ => false
  end.

(** The process left idle for [t]. *)
Definition idle (t : Z) (w : World) : World :=
  mkWorld (now w + Z.max 0 t) (env w) (cb w) (apiCalls w) (draws w)
          (naps w) (api w) (rnd w) (overshoot w).

(** By how much the next [n] sleeps of the process overshoot, in all. *)
Fixpoint overshoots (w : World) (n : nat) : Z :=
  match n with
  | O => 0
  | S n' => overshoots w n' + Z.max 0 (overshoot w (naps w + n')%nat)
  end.

(** A downstream API that fails each call after 25 s. *)
Definition slowOutage : World :=
  start (fun _ => mkReply (25 * Second) None) (fun _ => Float64.Fin 1 (-1)).

(** The process after [k] iterations of the loop from iteration [i], each
    of them one attempt, one random number and one sleep. *)
Fixpoint iterations (k : nat) (i : Z) (w : World) : World :=
  match k with
  | O => w
  | S k' => iterations k' (i + 1) (backedOff i (snd (cbExecute w)))
  end.

(** The downstream API is down and every wake-up is 3 ms late. *)
Definition lateOutage : World :=
  startWith (fun _ => apiDown) (fun _ => Float64.Fin 1 (-1))
            (fun _ => 3000000).

(** * Properties *)

(** ** The retry loop, for any breaker, timer, random source and metric *)

Section HandlerFacts.

Context {W : Type}.
Variable Execute : W -> ExecResult * W.
Variable RandFloat64 : W -> Float64.t * W.
Variable timeSleep : Z -> W -> W.
Variable incMetric : string -> W -> W.

Local Abbreviation loop :=
  (retryLoop Execute RandFloat64 timeSleep incMetric).

(** One iteration whose attempt succeeds. *)
Lemma retryLoop_success n i r0 w res w1 :
  Execute w = (res, w1) -> snd res = None ->
  loop (S n) i r0 w
  = (res, [CallExecute i res; IncRequestCount "success"],
     incMetric "success" w1).
Proof.
  intros HE Hs. simpl. rewrite HE, Hs. reflexivity.
Qed.

(** One iteration whose attempt fails. *)
Lemma retryLoop_failure n i r0 w res e w1 f w2 :
  Execute w = (res, w1) -> snd res = Some e -> RandFloat64 w1 = (f, w2) ->
  loop (S n) i r0 w
  = (let d := exponentialBackoff i f in
     let '(res', tr, w') := loop n (i + 1) res (timeSleep d w2) in
     (res', CallExecute i res :: TimeSleep d :: tr, w')).
Proof.
  intros HE Hs HR. simpl. rewrite HE, Hs, HR. reflexivity.
Qed.

(** Every run of the loop has the shape [run]. *)
Lemma retryLoop_run n : forall i r0 w,
  let '(res, tr, _) := loop n i r0 w in run n i r0 res tr.
Proof.
  induction n as [|n IH]; intros i r0 w; simpl.
  - apply run_done.
  - destruct (Execute w) as [res w1]. destruct (snd res) as [e|] eqn:Hs.
    + destruct (RandFloat64 w1) as [f w2].
      specialize (IH (i + 1) res (timeSleep (exponentialBackoff i f) w2)).
      destruct (loop n (i + 1) res _) as [[res' tr] w'].
      apply run_retry; [unfold failed; now rewrite Hs | exact IH].
    + apply run_ok. unfold failed. now rewrite Hs.
Qed.

End HandlerFacts.

(** Facts that follow from the shape of a run alone. *)
Lemma run_counts n i r0 res tr :
  run n i r0 res tr ->
  (count isCallExecute tr <= n)%nat /\
  filter isResponse tr = [] /\
  count (isInc "failure") tr = O /\
  (count (isInc "success") tr <= 1)%nat.
Proof.
  unfold count.
  induction 1 as [i r0|n i r0 res Hres|n i r0 r res f tr Hr _ IH]; simpl.
  - repeat split; auto.
  - repeat split; auto. lia.
  - destruct IH as (H1 & H2 & H3 & H4). repeat split; auto; lia.
Qed.

Lemma run_ends_ok n i r0 res tr :
  run (S n) i r0 res tr -> failed res = false ->
  exists pre k,
    tr = (pre ++ [CallExecute k res; IncRequestCount "success"])%list
    /\ forallb retried pre = true
    /\ count isCallExecute pre = count isTimeSleep pre
    /\ k = i + Z.of_nat (count isCallExecute pre)
    /\ (count isCallExecute pre <= n)%nat.
Proof.
  revert i r0 tr. induction n as [|n IH]; intros i r0 tr H Hf.
  - inversion H as [|n' i' r0' res' Hres|n' i' r0' r res' f tr' Hr Hrun];
      subst.
    + exists [], i. cbn. repeat split; lia.
    + inversion Hrun; subst. congruence.
  - inversion H as [|n' i' r0' res' Hres|n' i' r0' r res' f tr' Hr Hrun];
      subst.
    + exists [], i. cbn. repeat split; lia.
    + destruct (IH _ _ _ Hrun Hf) as (pre & k & -> & Hall & Hc & Hk & Hn).
      exists (CallExecute i r :: TimeSleep (exponentialBackoff i f) :: pre), k.
      unfold count in *. cbn. rewrite Hr, Hall. repeat split; lia.
Qed.

Lemma run_ends_failed n i r0 res tr :
  run (S n) i r0 res tr -> failed res = true ->
  exists pre f,
    tr = (pre ++ [CallExecute (i + Z.of_nat n) res;
                  TimeSleep (exponentialBackoff (i + Z.of_nat n) f)])%list
    /\ forallb retried pre = true
    /\ count isCallExecute pre = n /\ count isTimeSleep pre = n.
Proof.
  revert i r0 tr. induction n as [|n IH]; intros i r0 tr H Hf.
  - inversion H as [|n' i' r0' res' Hres|n' i' r0' r res' f tr' Hr Hrun];
      subst; [congruence|].
    inversion Hrun; subst.
    exists [], f. cbn. rewrite Z.add_0_r. repeat split; reflexivity.
  - inversion H as [|n' i' r0' res' Hres|n' i' r0' r res' f tr' Hr Hrun];
      subst; [congruence|].
    destruct (IH _ _ _ Hrun Hf) as (pre & f' & -> & Hall & Hc & Hs).
    exists (CallExecute i r :: TimeSleep (exponentialBackoff i f) :: pre), f'.
    unfold count in *. cbn. rewrite Hr, Hall.
    replace (i + 1 + Z.of_nat n) with (i + Z.of_nat (S n)) by lia.
    repeat split; auto; lia.
Qed.

(** ** What the loop and the handler do, whatever the breaker *)

Section AttemptsFacts.

Context {W : Type}.
Variable Execute : W -> ExecResult * W.
Variable RandFloat64 : W -> Float64.t * W.
Variable timeSleep : Z -> W -> W.
Variable incMetric : string -> W -> W.

(** After [k] failed iterations the loop goes on with the iterations that
    are left. *)
Lemma failedAttempts_loop (k : nat) : forall n i r0 w r trk wk,
  failedAttempts Execute RandFloat64 timeSleep k i r0 w = Some (r, trk, wk) ->
  retryLoop Execute RandFloat64 timeSleep incMetric (k + n) i r0 w
  = (let '(res, tr, w') :=
       retryLoop Execute RandFloat64 timeSleep incMetric n
                 (i + Z.of_nat k) r wk in
     (res, (trk ++ tr)%list, w')).
Proof.
  induction k as [|k IH]; intros n i r0 w r trk wk H.
  - cbn in H. injection H as <- <- <-. cbn [Nat.add app].
    change (Z.of_nat 0) with 0. rewrite Z.add_0_r.
    now destruct (retryLoop _ _ _ _ n i r0 w) as [[res tr] w'].
  - cbn [failedAttempts] in H. cbn [Nat.add retryLoop].
    destruct (Execute w) as [res w1]. destruct (snd res); [|discriminate].
    destruct (RandFloat64 w1) as [f w2].
    destruct (failedAttempts _ _ _ k (i + 1) res _) as [[[r' tr'] w'']|]
      eqn:Hk; [|discriminate].
    injection H as <- <- <-.
    rewrite (IH n _ _ _ _ _ _ Hk).
    replace (i + 1 + Z.of_nat k) with (i + Z.of_nat (S k)) by lia.
    now destruct (retryLoop _ _ _ _ n _ r' w'') as [[res' tr] w'].
Qed.

Lemma failedAttempts_counts (k : nat) : forall i r0 w r trk wk,
  failedAttempts Execute RandFloat64 timeSleep k i r0 w = Some (r, trk, wk) ->
  count isCallExecute trk = k /\ count isTimeSleep trk = k
  /\ forallb retried trk = true.
Proof.
  induction k as [|k IH]; intros i r0 w r trk wk H.
  - cbn in H. injection H as <- <- <-. repeat split.
  - cbn [failedAttempts] in H.
    destruct (Execute w) as [res w1].
    destruct (snd res) eqn:Hs; [|discriminate].
    destruct (RandFloat64 w1) as [f w2].
    destruct (failedAttempts _ _ _ k (i + 1) res _) as [[[r' tr'] w'']|]
      eqn:Hk; [|discriminate].
    injection H as <- <- <-.
    destruct (IH _ _ _ _ _ _ Hk) as (H1 & H2 & H3).
    unfold count in *. cbn. unfold failed. rewrite Hs, H3. cbn.
    repeat split; lia.
Qed.

End AttemptsFacts.

(** C2: the loop calls [cb.Execute] at most 5 times.  When its first [k]
    attempts fail, [k < 5], and the next attempt succeeds, the loop stops
    there: it returns what that call of [cb.Execute] returned, in the state
    that call left but for the [success] increment; [cb.Execute] has been
    called [k + 1] times and nothing follows the successful call, neither
    an attempt nor a sleep. *)
Theorem retry_stops_at_first_success {W : Type}
  (Execute : W -> ExecResult * W) (RandFloat64 : W -> Float64.t * W)
  (timeSleep : Z -> W -> W) (incMetric : string -> W -> W) :
  (forall w,
      let '(_, tr, _) := retry Execute RandFloat64 timeSleep incMetric w in
      (count isCallExecute tr <= 5)%nat)
  /\ (forall (k : nat) (w wk : W) r trk res w',
        (k < 5)%nat ->
        failedAttempts Execute RandFloat64 timeSleep k 0 (None, None) w
        = Some (r, trk, wk) ->
        Execute wk = (res, w') ->
        snd res = None ->
        retry Execute RandFloat64 timeSleep incMetric w
        = (res,
           (trk ++ [CallExecute (Z.of_nat k) res;
                    IncRequestCount "success"])%list,
           incMetric "success" w')
        /\ count isCallExecute trk = k /\ count isTimeSleep trk = k).
Proof.
  split.
  - intros w. unfold retry.
    pose proof (retryLoop_run Execute RandFloat64 timeSleep incMetric
                  (Z.to_nat attempts) 0 (None, None) w) as Hrun.
    destruct (retryLoop _ _ _ _ _ _ _ _) as [[res tr] w'].
    change (Z.to_nat attempts) with 5%nat in Hrun.
    apply (run_counts _ _ _ _ _ Hrun).
  - intros k w wk r trk res w' Hk Hf HE Hs.
    destruct (failedAttempts_counts Execute RandFloat64 timeSleep k _ _ _ _
                _ _ Hf) as (C1 & C2 & _).
    split; [|split; assumption].
    unfold retry. change (Z.to_nat attempts) with 5%nat.
    replace 5%nat with (k + S (4 - k))%nat by lia.
    rewrite (failedAttempts_loop Execute RandFloat64 timeSleep incMetric k
               _ _ _ _ _ _ _ Hf).
    rewrite (retryLoop_success Execute RandFloat64 timeSleep incMetric _ _
               _ wk _ _ HE Hs).
    reflexivity.
Qed.

(** C3, as the code has it: a backoff sleep follows every failed attempt,
    whether or not attempts remain.  After [k] failed attempts, each
    followed by its sleep, the next attempt either succeeds, and the loop
    stops without a sleep, or fails, and the loop sleeps
    [exponentialBackoff(k)] on the number it draws and goes on with the
    iterations that are left; when this was the fifth attempt none is
    left: the loop has made 5 attempts and 5 sleeps and returns the last
    failure after the last sleep. *)
Theorem retry_sleeps_after_every_failure {W : Type}
  (Execute : W -> ExecResult * W) (RandFloat64 : W -> Float64.t * W)
  (timeSleep : Z -> W -> W) (incMetric : string -> W -> W)
  (k : nat) (w wk : W) (r : ExecResult) (trk : list Action)
  (res : ExecResult) (w1 : W) (f : Float64.t) (w2 : W) :
  (k < 5)%nat ->
  failedAttempts Execute RandFloat64 timeSleep k 0 (None, None) w
  = Some (r, trk, wk) ->
  Execute wk = (res, w1) ->
  RandFloat64 w1 = (f, w2) ->
  retry Execute RandFloat64 timeSleep incMetric w
  = (if failed res then
       let d := exponentialBackoff (Z.of_nat k) f in
       let '(res', tr, w') :=
         retryLoop Execute RandFloat64 timeSleep incMetric (4 - k)
                   (Z.of_nat k + 1) res (timeSleep d w2) in
       (res', (trk ++ CallExecute (Z.of_nat k) res :: TimeSleep d :: tr)%list,
        w')
     else
       (res,
        (trk ++ [CallExecute (Z.of_nat k) res;
                 IncRequestCount "success"])%list,
        incMetric "success" w1))
  /\ (if failed res && (k =? 4)%nat then
        retry Execute RandFloat64 timeSleep incMetric w
        = (res,
           (trk ++ [CallExecute 4 res;
                    TimeSleep (exponentialBackoff 4 f)])%list,
           timeSleep (exponentialBackoff 4 f) w2)
        /\ count isCallExecute trk = 4%nat
        /\ count isTimeSleep trk = 4%nat
      else True).
Proof.
  intros Hk Hf HE HR.
  assert (Hfirst :
    retry Execute RandFloat64 timeSleep incMetric w
    = (if failed res then
         let d := exponentialBackoff (Z.of_nat k) f in
         let '(res', tr, w') :=
           retryLoop Execute RandFloat64 timeSleep incMetric (4 - k)
                     (Z.of_nat k + 1) res (timeSleep d w2) in
         (res',
          (trk ++ CallExecute (Z.of_nat k) res :: TimeSleep d :: tr)%list,
          w')
       else
         (res,
          (trk ++ [CallExecute (Z.of_nat k) res;
                   IncRequestCount "success"])%list,
          incMetric "success" w1))).
  { unfold retry. change (Z.to_nat attempts) with 5%nat.
    replace 5%nat with (k + S (4 - k))%nat by lia.
    rewrite (failedAttempts_loop Execute RandFloat64 timeSleep incMetric k
               _ _ _ _ _ _ _ Hf).
    change (0 + Z.of_nat k) with (Z.of_nat k).
    unfold failed. destruct (snd res) as [e|] eqn:Hs.
    - rewrite (retryLoop_failure Execute RandFloat64 timeSleep incMetric _
                 _ _ wk _ e _ _ _ HE Hs HR).
      cbv zeta.
      now destruct (retryLoop _ _ _ _ (4 - k) _ res _) as [[res' tr] w'].
    - rewrite (retryLoop_success Execute RandFloat64 timeSleep incMetric _
                 _ _ wk _ _ HE Hs).
      reflexivity. }
  split; [exact Hfirst|].
  destruct (failed res) eqn:Hfail; [|exact I].
  destruct (k =? 4)%nat eqn:H4; [|exact I]. cbn [andb].
  apply Nat.eqb_eq in H4. subst k.
  destruct (failedAttempts_counts Execute RandFloat64 timeSleep 4 _ _ _ _
              _ _ Hf) as (C1 & C2 & _).
  split; [|split; assumption].
  rewrite Hfirst. reflexivity.
Qed.

(** C5: whatever the error [cb.Execute] returns, a failure of the operation
    or a rejection by the breaker, the iteration is spent: the loop sleeps
    [exponentialBackoff(i)] and goes on with one iteration less. *)
Theorem retry_counts_every_error {W : Type}
  (Execute : W -> ExecResult * W) (RandFloat64 : W -> Float64.t * W)
  (timeSleep : Z -> W -> W) (incMetric : string -> W -> W)
  (n : nat) (i : Z) (r0 : ExecResult) (w : W)
  (result : option Z) (e : error) (w1 : W) (f : Float64.t) (w2 : W) :
  Execute w = ((result, Some e), w1) ->
  RandFloat64 w1 = (f, w2) ->
  retryLoop Execute RandFloat64 timeSleep incMetric (S n) i r0 w
  = (let d := exponentialBackoff i f in
     let '(res', tr, w') :=
       retryLoop Execute RandFloat64 timeSleep incMetric n (i + 1)
                 (result, Some e) (timeSleep d w2) in
     (res', CallExecute i (result, Some e) :: TimeSleep d :: tr, w')).
Proof.
  intros HE HR. simpl. rewrite HE. simpl. rewrite HR. reflexivity.
Qed.


(** ** The handler in the process, with the breaker *)

Lemma rollWindow_within (t : Z) (b : CircuitBreaker) :
  t - windowStart b < Interval settings -> rollWindow settings t b = b.
Proof.
  intros H. unfold rollWindow. destruct (state b); try reflexivity.
  destruct (Interval settings <=? t - windowStart b) eqn:Hle.
  - apply Z.leb_le in Hle. lia.
  - now rewrite andb_false_r.
Qed.

Lemma rollWindow_state (st : Settings) (t : Z) (b : CircuitBreaker) :
  state (rollWindow st t b) = state b.
Proof.
  unfold rollWindow. destruct (state b) eqn:Hs; try exact Hs.
  now destruct (_ && _).
Qed.

Lemma rollWindow_failures (st : Settings) (t : Z) (b : CircuitBreaker) :
  ConsecutiveFailures (counts (rollWindow st t b)) = 0 \/
  rollWindow st t b = b.
Proof.
  unfold rollWindow. destruct (state b); try now right.
  destruct (_ && _); [now left | now right].
Qed.

Lemma rollWindow_start (st : Settings) (t : Z) (b : CircuitBreaker) :
  windowStart (rollWindow st t b) = windowStart b
  \/ (windowStart (rollWindow st t b) = t
      /\ Interval st <= t - windowStart b).
Proof.
  unfold rollWindow. destruct (state b); try now left.
  destruct (negb _); cbn [andb]; [|now left].
  destruct (Interval st <=? t - windowStart b) eqn:H; [|now left].
  apply Z.leb_le in H. now right.
Qed.

(** One call of [cb.Execute] on a Closed breaker: the counters are brought
    to the current window at admission; when the interval elapses during
    the call, they restart at its end and the outcome is not counted. *)
Lemma cbExecute_closed (w : World) :
  state (cb w) = StateClosed ->
  cbExecute w
  = let reply := api w (apiCalls w) in
    let t := now w + Z.max 0 (latency reply) in
    let b0 := rollWindow settings (now w) (cb w) in
    let b := withCounts (onRequest (counts b0)) b0 in
    let res := match statusCode reply with
               | Some code => (Some code, None)
               | None => opFailure
               end in
    let after b' e' :=
      mkWorld t e' b' (S (apiCalls w)) (draws w) (naps w) (api w) (rnd w)
              (overshoot w) in
    if Interval settings <=? t - windowStart b0 then
      (res,
       after (mkCB StateClosed (generation b0 + 1) (expiry b0) zeroCounts t)
             (env w))
    else
      match statusCode reply with
      | Some code => (res, after (withCounts (onSuccess (counts b)) b) (env w))
      | None =>
          let b' := withCounts (onFailure (counts b)) b in
          let e' := incRequestCount "failure" (env w) in
          (res,
           if 3 <? ConsecutiveFailures (counts b') then
             after (mkCB StateOpen (generation b + 1) (t + Timeout settings)
                         (counts b') (windowStart b))
                   (OnStateChange (Name settings) StateClosed StateOpen e')
           else after b' e')
      end.
Proof.
  destruct w as [t0 e b calls dr np a r ov]. cbn [cb now api apiCalls env
    draws naps rnd overshoot]. intros Hs.
  unfold cbExecute, Execute, beforeRequest.
  cbn [cb now api apiCalls env draws naps rnd overshoot]. rewrite Hs.
  pose proof (rollWindow_state settings t0 b) as Hs0. rewrite Hs in Hs0.
  set (b0 := rollWindow settings t0 b) in *.
  unfold request, callExternalAPI, setBreaker.
  cbn [now env cb apiCalls draws naps api rnd overshoot].
  set (t := t0 + Z.max 0 (latency (a calls))).
  set (b1 := withCounts (onRequest (counts b0)) b0).
  assert (Hroll : rollWindow settings t b1
                  = if Interval settings <=? t - windowStart b0
                    then mkCB StateClosed (generation b0 + 1) (expiry b0)
                              zeroCounts t
                    else b1).
  { unfold rollWindow. subst b1. cbn [state withCounts windowStart
      generation expiry]. rewrite Hs0.
    change (Interval settings =? 0) with false. cbn [negb andb].
    reflexivity. }
  assert (Hgen : (generation b0 + 1 =? generation b0) = false)
    by (apply Z.eqb_neq; lia).
  destruct (statusCode (a calls)) as [code|];
    cbn [snd fst now env cb apiCalls draws naps api rnd overshoot];
    unfold afterRequest; rewrite Hroll;
    destruct (Interval settings <=? t - windowStart b0);
    cbn [generation negb]; rewrite ?Hgen;
    cbn [negb now env cb apiCalls draws naps api rnd overshoot];
    try reflexivity;
    subst b1; cbn [generation withCounts state]; rewrite Z.eqb_refl, Hs0;
    cbn [negb]; try reflexivity.
  unfold readyToTrip. cbn [settings].
  unfold ReadyToTrip at 1. cbn [fst snd].
  destruct (3 <? _); [|reflexivity].
  unfold setState. cbn [state withCounts]. rewrite Hs0. reflexivity.
Qed.

(** A call of [cb.Execute] leaves the scripts of the random source, of the
    downstream API and of the wake-ups untouched; it runs the operation at
    most once and the clock does not go back. *)
Lemma Execute_frame (st : Settings) (w : World) :
  let w' := snd (Execute st request w) in
  rnd w' = rnd w /\ api w' = api w /\ draws w' = draws w
  /\ (apiCalls w' = apiCalls w \/ apiCalls w' = S (apiCalls w))
  /\ now w <= now w'
  /\ naps w' = naps w /\ overshoot w' = overshoot w.
Proof.
  destruct w as [t0 e b calls dr np a r ov].
  unfold Execute, request, callExternalAPI, setBreaker. simpl.
  destruct (beforeRequest st t0 b e) as [[adm b1] e1].
  destruct adm as [gen|err]; simpl.
  - destruct (statusCode (a calls)); simpl;
      match goal with |- context [afterRequest ?s ?g ?x ?t ?bb ?ee] =>
        destruct (afterRequest s g x t bb ee) as [b2 e2] end; simpl;
      repeat split; auto; lia.
  - repeat split; auto; lia.
Qed.

(** One call of [cb.Execute] on an Open breaker before [expiry]. *)
Lemma cbExecute_open (w : World) :
  state (cb w) = StateOpen -> now w < expiry (cb w) ->
  cbExecute w = ((None, Some ErrOpenState), w).
Proof.
  destruct w as [t0 e b calls dr np a r ov]. destruct b as [s g x c ws].
  simpl. intros -> Hlt.
  unfold cbExecute, Execute, beforeRequest. simpl.
  destruct (x <=? t0) eqn:Hx; [apply Z.leb_le in Hx; lia|]. reflexivity.
Qed.

(** What a call on a Closed breaker leaves untouched, and its result. *)
Lemma closed_call_frame (w : World) :
  state (cb w) = StateClosed ->
  let w' := snd (cbExecute w) in
  fst (cbExecute w)
  = match statusCode (api w (apiCalls w)) with
    | Some code => (Some code, None)
    | None => opFailure
    end
  /\ apiCalls w' = S (apiCalls w) /\ api w' = api w /\ rnd w' = rnd w
  /\ draws w' = draws w /\ naps w' = naps w /\ overshoot w' = overshoot w
  /\ now w' = now w + Z.max 0 (latency (api w (apiCalls w))).
Proof.
  intros Hs. rewrite (cbExecute_closed w Hs). cbv zeta.
  destruct (Interval settings <=? _); [now cbn|].
  destruct (statusCode _); [now cbn|].
  cbn [fst snd]. destruct (3 <? _); now cbn.
Qed.

(** A failure on a Closed breaker that does not yet trip it. *)
Lemma closed_failure_step (w : World) :
  state (cb w) = StateClosed ->
  statusCode (api w (apiCalls w)) = None ->
  ConsecutiveFailures (counts (cb w)) < 3 ->
  let w' := snd (cbExecute w) in
  state (cb w') = StateClosed
  /\ apiCalls w' = S (apiCalls w) /\ api w' = api w /\ rnd w' = rnd w
  /\ draws w' = draws w /\ now w <= now w'
  /\ (ConsecutiveFailures (counts (cb w')) = 0 \/
      ConsecutiveFailures (counts (cb w')) = 1 \/
      ConsecutiveFailures (counts (cb w'))
      = ConsecutiveFailures (counts (cb w)) + 1)
  /\ (now w' - windowStart (cb w) < Interval settings ->
      ConsecutiveFailures (counts (cb w'))
      = ConsecutiveFailures (counts (cb w)) + 1
      /\ windowStart (cb w') = windowStart (cb w)).
Proof.
  intros Hs Ha Hc.
  destruct (closed_call_frame w Hs) as (_ & F1 & F2 & F3 & F4 & _ & _ & F7).
  cbv zeta. rewrite F1, F2, F3, F4, F7.
  assert (Hcf : 0 <= 3 - ConsecutiveFailures (counts (cb w))) by lia.
  rewrite (cbExecute_closed w Hs). cbv zeta. rewrite Ha.
  set (t := now w + Z.max 0 (latency (api w (apiCalls w)))).
  assert (Ht : now w <= t) by (subst t; lia).
  set (b0 := rollWindow settings (now w) (cb w)).
  assert (Hb0 : (ConsecutiveFailures (counts b0) = 0) \/ b0 = cb w)
    by apply rollWindow_failures.
  assert (Hnt : (3 <? ConsecutiveFailures (counts b0) + 1) = false)
    by (apply Z.ltb_ge; destruct Hb0 as [-> | ->]; lia).
  destruct (Interval settings <=? t - windowStart b0) eqn:Hw;
    cbn [snd cb state counts ConsecutiveFailures zeroCounts withCounts
         onFailure onRequest].
  - apply Z.leb_le in Hw.
    assert (Hout : ~ t - windowStart (cb w) < Interval settings).
    { subst b0.
      destruct (rollWindow_start settings (now w) (cb w)) as [E|[E E']];
        rewrite E in Hw; lia. }
    repeat split; auto; contradiction.
  - rewrite Hnt.
    cbn [snd cb state counts ConsecutiveFailures zeroCounts withCounts
         onFailure onRequest windowStart].
    apply Z.leb_gt in Hw.
    assert (Hs0 : state b0 = StateClosed)
      by (subst b0; now rewrite rollWindow_state).
    repeat split; auto.
    + destruct Hb0 as [-> | ->]; [right; left; reflexivity | right; right;
        reflexivity].
    + subst b0. rewrite rollWindow_within by lia. reflexivity.
    + subst b0. rewrite rollWindow_within by lia. reflexivity.
Qed.

(** The failure that trips a Closed breaker, counted in the window the
    three before it were counted in. *)
Lemma closed_failure_trip (w : World) :
  state (cb w) = StateClosed ->
  statusCode (api w (apiCalls w)) = None ->
  3 <= ConsecutiveFailures (counts (cb w)) ->
  let w' := snd (cbExecute w) in
  now w' - windowStart (cb w) < Interval settings ->
  state (cb w') = StateOpen
  /\ expiry (cb w') = now w' + Timeout settings
  /\ apiCalls w' = S (apiCalls w) /\ api w' = api w /\ rnd w' = rnd w
  /\ draws w' = draws w /\ now w <= now w'.
Proof.
  intros Hs Ha Hc.
  destruct (closed_call_frame w Hs) as (_ & F1 & F2 & F3 & F4 & _ & _ & F7).
  cbv zeta. rewrite F1, F2, F3, F4, F7. intros Hin.
  rewrite (cbExecute_closed w Hs). cbv zeta. rewrite Ha.
  rewrite (rollWindow_within (now w) (cb w)) by lia.
  destruct (Interval settings <=? _) eqn:Hw;
    [apply Z.leb_le in Hw; lia|].
  cbn [snd].
  replace (3 <? _) with true
    by (symmetry; apply Z.ltb_lt; cbn; lia).
  cbn. repeat split; auto; lia.
Qed.

(** A success on a Closed breaker. *)
Lemma closed_success_step (w : World) (code : Z) :
  state (cb w) = StateClosed ->
  statusCode (api w (apiCalls w)) = Some code ->
  cbExecute w = ((Some code, None), snd (cbExecute w))
  /\ state (cb (snd (cbExecute w))) = StateClosed
  /\ apiCalls (snd (cbExecute w)) = S (apiCalls w).
Proof.
  intros Hs Ha. rewrite (cbExecute_closed w Hs). cbv zeta. rewrite Ha.
  destruct (Interval settings <=? _); cbn [snd cb apiCalls state withCounts];
    [now repeat split|].
  rewrite rollWindow_state. now repeat split.
Qed.

(** C1, as the breaker has it: [ReadyToTrip] answers true exactly when
    [ConsecutiveFailures] exceeds 3.  On a Closed breaker with no failure
    streak, four consecutive failures of the operation that are counted
    within one rolling interval of 60 s, whatever the pauses between the
    calls, trip the breaker: it is still Closed after the first, second and
    third and Open after the fourth; a fifth call made before the open
    timeout of 30 s has elapsed is rejected with the open-circuit error and
    the operation is not run. *)
Theorem four_failures_trip (w : World) (t0 t1 t2 t3 t : Z) :
  state (cb w) = StateClosed ->
  ConsecutiveFailures (counts (cb w)) = 0 ->
  (forall k, (k < 4)%nat -> statusCode (api w (apiCalls w + k)) = None) ->
  let w1 := snd (cbExecute (idle t0 w)) in
  let w2 := snd (cbExecute (idle t1 w1)) in
  let w3 := snd (cbExecute (idle t2 w2)) in
  let w4 := snd (cbExecute (idle t3 w3)) in
  now w4 - windowStart (cb w) < Interval settings ->
  t < Timeout settings ->
  (forall c e, fst (ReadyToTrip c e) = true <-> 3 < ConsecutiveFailures c)
  /\ state (cb w1) = StateClosed
  /\ state (cb w2) = StateClosed
  /\ state (cb w3) = StateClosed
  /\ state (cb w4) = StateOpen
  /\ cbExecute (idle t w4) = ((None, Some ErrOpenState), idle t w4)
  /\ apiCalls (idle t w4) = (apiCalls w + 4)%nat.
Proof.
  intros Hs Hc Hapi w1 w2 w3 w4 Hwin Hd.
  assert (I : forall d v, now v <= now (idle d v)) by (intros; cbn; lia).
  assert (M : forall v, now v <= now (snd (cbExecute v)))
    by (intros v; apply (Execute_frame settings v)).
  pose proof (I t0 w) as I0. pose proof (M (idle t0 w)) as M0.
  pose proof (I t1 w1) as I1. pose proof (M (idle t1 w1)) as M1.
  pose proof (I t2 w2) as I2. pose proof (M (idle t2 w2)) as M2.
  pose proof (I t3 w3) as I3. pose proof (M (idle t3 w3)) as M3.
  fold w1 in M0. fold w2 in M1. fold w3 in M2. fold w4 in M3.
  assert (A0 : statusCode (api w (apiCalls w)) = None)
    by (rewrite <- (Nat.add_0_r (apiCalls w)); apply Hapi; lia).
  destruct (closed_failure_step (idle t0 w) Hs A0 ltac:(cbn [idle cb]; lia))
    as (S1 & C1 & P1 & _ & _ & _ & _ & W1). fold w1 in S1, C1, P1, W1.
  cbn [idle cb api apiCalls] in C1, P1, W1.
  destruct (W1 ltac:(lia)) as [F1 V1].
  assert (A1 : statusCode (api w1 (apiCalls w1)) = None)
    by (rewrite P1, C1, <- Nat.add_1_r; apply Hapi; lia).
  destruct (closed_failure_step (idle t1 w1) S1 A1 ltac:(cbn [idle cb]; lia))
    as (S2 & C2 & P2 & _ & _ & _ & _ & W2). fold w2 in S2, C2, P2, W2.
  cbn [idle cb api apiCalls] in C2, P2, W2.
  destruct (W2 ltac:(lia)) as [F2 V2].
  assert (A2 : statusCode (api w2 (apiCalls w2)) = None).
  { rewrite P2, P1, C2, C1.
    replace (S (S (apiCalls w))) with (apiCalls w + 2)%nat by lia.
    apply Hapi; lia. }
  destruct (closed_failure_step (idle t2 w2) S2 A2 ltac:(cbn [idle cb]; lia))
    as (S3 & C3 & P3 & _ & _ & _ & _ & W3). fold w3 in S3, C3, P3, W3.
  cbn [idle cb api apiCalls] in C3, P3, W3.
  destruct (W3 ltac:(lia)) as [F3 V3].
  assert (A3 : statusCode (api w3 (apiCalls w3)) = None).
  { rewrite P3, P2, P1, C3, C2, C1.
    replace (S (S (S (apiCalls w)))) with (apiCalls w + 3)%nat by lia.
    apply Hapi; lia. }
  destruct (closed_failure_trip (idle t3 w3) S3 A3
              ltac:(cbn [idle cb]; lia))
    as (S4 & X4 & C4 & _).
  { fold w4. cbn [idle cb]. lia. }
  fold w4 in S4, X4, C4. cbn [idle apiCalls] in C4.
  split.
  { intros c e. cbn. apply Z.ltb_lt. }
  repeat split; auto.
  - apply cbExecute_open; [exact S4|]. cbn [idle now cb]. rewrite X4.
    unfold settings, Second in *. cbn [Timeout] in *. lia.
  - cbn [idle apiCalls]. lia.
Qed.

Lemma closed_failure_result (w : World) :
  state (cb w) = StateClosed ->
  statusCode (api w (apiCalls w)) = None ->
  cbExecute w = (opFailure, snd (cbExecute w)).
Proof.
  intros Hs Ha.
  destruct (closed_call_frame w Hs) as (E & _). rewrite Ha in E.
  rewrite <- E. now destruct (cbExecute w).
Qed.

(** An iteration of the loop in which the operation fails on a Closed
    breaker. *)
Lemma serve_failed_iteration n i r0 (w : World) :
  state (cb w) = StateClosed ->
  statusCode (api w (apiCalls w)) = None ->
  retryLoop cbExecute randFloat64 sleep incMetric (S n) i r0 w
  = (let w1 := snd (cbExecute w) in
     let '(res', tr, w') :=
       retryLoop cbExecute randFloat64 sleep incMetric n (i + 1) opFailure
                 (backedOff i w1) in
     (res',
      CallExecute i opFailure
        :: TimeSleep (exponentialBackoff i (rnd w1 (draws w1))) :: tr,
      w')).
Proof.
  intros Hs Ha.
  rewrite (retryLoop_failure cbExecute randFloat64 sleep incMetric n i r0 w
             opFailure (OperationError "Get failed") (snd (cbExecute w))
             (rnd (snd (cbExecute w)) (draws (snd (cbExecute w))))
             (snd (randFloat64 (snd (cbExecute w)))));
    [reflexivity | now apply closed_failure_result | reflexivity
    | reflexivity].
Qed.

(** C6: against an operation that fails twice and then succeeds, on a
    Closed breaker whose failure streak is at most one (a new breaker has
    none), the loop returns the success of the third attempt: exactly three
    calls of [cb.Execute] and of the operation, and exactly two sleeps, one
    after each failed attempt. *)
Theorem fails_twice_then_succeeds (w : World) (code : Z) :
  state (cb w) = StateClosed ->
  ConsecutiveFailures (counts (cb w)) <= 1 ->
  statusCode (api w (apiCalls w)) = None ->
  statusCode (api w (S (apiCalls w))) = None ->
  statusCode (api w (S (S (apiCalls w)))) = Some code ->
  let '(res, tr, w') := retryAPI w in
  res = (Some code, None)
  /\ (exists d0 d1,
         tr = [CallExecute 0 opFailure; TimeSleep d0;
               CallExecute 1 opFailure; TimeSleep d1;
               CallExecute 2 (Some code, None); IncRequestCount "success"])
  /\ count isCallExecute tr = 3%nat
  /\ count isTimeSleep tr = 2%nat
  /\ apiCalls w' = (apiCalls w + 3)%nat.
Proof.
  intros Hs Hc A0 A1 A2.
  unfold retryAPI, retry. change (Z.to_nat attempts) with 5%nat.
  rewrite (serve_failed_iteration _ _ _ w Hs A0). cbv zeta.
  destruct (closed_failure_step w Hs A0 ltac:(lia))
    as (S1 & C1 & P1 & _ & _ & _ & O1 & _).
  set (w1 := snd (cbExecute w)) in *.
  set (v1 := backedOff 0 w1).
  assert (Sv1 : state (cb v1) = StateClosed) by exact S1.
  assert (Av1 : statusCode (api v1 (apiCalls v1)) = None).
  { change (api v1) with (api w1). change (apiCalls v1) with (apiCalls w1).
    now rewrite P1, C1. }
  rewrite (serve_failed_iteration _ _ _ v1 Sv1 Av1). cbv zeta.
  destruct (closed_failure_step v1 Sv1 Av1) as (S2 & C2 & P2 & _).
  { change (cb v1) with (cb w1). lia. }
  set (w2 := snd (cbExecute v1)) in *.
  set (v2 := backedOff (0 + 1) w2).
  assert (Sv2 : state (cb v2) = StateClosed) by exact S2.
  assert (Av2 : statusCode (api v2 (apiCalls v2)) = Some code).
  { change (api v2) with (api w2). change (apiCalls v2) with (apiCalls w2).
    rewrite P2, C2. change (api v1) with (api w1).
    change (apiCalls v1) with (apiCalls w1). now rewrite P1, C1. }
  destruct (closed_success_step v2 code Sv2 Av2) as (E3 & _ & C3).
  rewrite (retryLoop_success cbExecute randFloat64 sleep incMetric _ _ _ v2
             _ _ E3 eq_refl).
  split; [reflexivity|]. split; [eauto|].
  split; [reflexivity|]. split; [reflexivity|].
  cbn [incMetric setBreaker apiCalls]. rewrite C3.
  change (apiCalls v2) with (apiCalls w2). rewrite C2.
  change (apiCalls v1) with (apiCalls w1). rewrite C1. lia.
Qed.

(** ** The metric *)


(** The increments the handler makes itself: one [success] and no
    [failure] in a run that ends in success; one [failure], after the five
    attempts, and no [success] in a run that ends in failure. *)
Lemma handler_increments {W : Type}
  (Execute : W -> ExecResult * W) (RandFloat64 : W -> Float64.t * W)
  (timeSleep : Z -> W -> W) (incMetric : string -> W -> W) (w : W) :
  let '(res, _, _) := retry Execute RandFloat64 timeSleep incMetric w in
  let '(tr, _) := handler Execute RandFloat64 timeSleep incMetric w in
  if failed res then
    count (isInc "success") tr = 0%nat /\ count (isInc "failure") tr = 1%nat
    /\ count isCallExecute tr = 5%nat
  else
    count (isInc "success") tr = 1%nat /\ count (isInc "failure") tr = 0%nat.
Proof.
  unfold handler, retry.
  pose proof (retryLoop_run Execute RandFloat64 timeSleep incMetric
                (Z.to_nat attempts) 0 (None, None) w) as Hrun.
  destruct (retryLoop _ _ _ _ _ _ _ _) as [[res tr] w'].
  change (Z.to_nat attempts) with 5%nat in Hrun.
  destruct (run_counts _ _ _ _ _ Hrun) as (_ & _ & Hfail & _).
  unfold failed in *. destruct (snd res) eqn:Hs.
  - assert (Hf : failed res = true) by (unfold failed; now rewrite Hs).
    destruct (run_ends_failed _ _ _ _ _ Hrun Hf) as (pre & d & -> & Hall & Hc & _).
    assert (Hno : count (isInc "success") pre = 0%nat).
    { clear - Hall. unfold count. induction pre as [|a pre IH]; [reflexivity|].
      cbn in Hall. apply andb_prop in Hall as [Ha Hp].
      destruct a; cbn in *; try discriminate; auto. }
    unfold count in *. rewrite !filter_app, !length_app in *. cbn in *.
    repeat split; lia.
  - assert (Hf : failed res = false) by (unfold failed; now rewrite Hs).
    destruct (run_ends_ok _ _ _ _ _ Hrun Hf) as (pre & k & -> & Hall & _).
    assert (Hno : count (isInc "success") pre = 0%nat).
    { clear - Hall. unfold count. induction pre as [|a pre IH]; [reflexivity|].
      cbn in Hall. apply andb_prop in Hall as [Ha Hp].
      destruct a; cbn in *; try discriminate; auto. }
    unfold count in *. rewrite !filter_app, !length_app in *. cbn in *.
    repeat split; lia.
Qed.

Lemma count_app (p : Action -> bool) (tr1 tr2 : list Action) :
  count p (tr1 ++ tr2) = (count p tr1 + count p tr2)%nat.
Proof.
  unfold count. now rewrite filter_app, length_app.
Qed.

(** A counter [m] of the metric, labelled [l], over a request: the loop
    and the handler add to it what they increment themselves, and each
    call of [cb.Execute] at most one more, and only when its result
    satisfies [q]. *)
Section Counting.

Context {W : Type}.
Variable Execute : W -> ExecResult * W.
Variable RandFloat64 : W -> Float64.t * W.
Variable timeSleep : Z -> W -> W.
Variable incMetric : string -> W -> W.
Variable m : W -> nat.
Variable l : string.
Variable q : Action -> bool.

Hypothesis m_rand : forall w, m (snd (RandFloat64 w)) = m w.
Hypothesis m_sleep : forall d w, m (timeSleep d w) = m w.
Hypothesis m_inc : forall l' w,
  m (incMetric l' w) = if String.eqb l l' then S (m w) else m w.
Hypothesis m_exec : forall i w,
  (m w <= m (snd (Execute w))
   <= m w + (if q (CallExecute i (fst (Execute w))) then 1 else 0))%nat.

Lemma loop_counter (n : nat) : forall i r0 w,
  let '(_, tr, w') :=
    retryLoop Execute RandFloat64 timeSleep incMetric n i r0 w in
  (m w + count (isInc l) tr <= m w'
   <= m w + count (isInc l) tr + count q tr)%nat.
Proof.
  induction n as [|n IH]; intros i r0 w; cbn [retryLoop].
  - cbn. lia.
  - pose proof (m_exec i w) as HE.
    destruct (Execute w) as [res w1]. cbn [fst snd] in HE.
    destruct (snd res) as [e|].
    + pose proof (m_rand w1) as HR.
      destruct (RandFloat64 w1) as [f w2]. cbn [snd] in HR.
      specialize (IH (i + 1) res (timeSleep (exponentialBackoff i f) w2)).
      destruct (retryLoop _ _ _ _ n _ _ _) as [[res' tr] w'].
      rewrite m_sleep, HR in IH.
      change (CallExecute i res :: TimeSleep (exponentialBackoff i f) :: tr)
        with ([CallExecute i res; TimeSleep (exponentialBackoff i f)] ++ tr)%list.
      rewrite !count_app. unfold count at 1 3. cbn [filter isInc Datatypes.length].
      unfold count at 3. cbn [filter].
      destruct (q (CallExecute i res)), (q (TimeSleep _)); cbn [Datatypes.length]; lia.
    + rewrite m_inc. unfold count. cbn [filter isInc].
      destruct (String.eqb l "success");
        destruct (q (CallExecute i res)), (q (IncRequestCount "success"));
        cbn [Datatypes.length]; lia.
Qed.

Lemma handler_counter (w : W) :
  let '(tr, w') := handler Execute RandFloat64 timeSleep incMetric w in
  (m w + count (isInc l) tr <= m w'
   <= m w + count (isInc l) tr + count q tr)%nat.
Proof.
  unfold handler, retry.
  pose proof (loop_counter (Z.to_nat attempts) 0 (None, None) w) as H.
  destruct (retryLoop _ _ _ _ _ _ _ _) as [[res tr] w'].
  destruct (snd res).
  - rewrite m_inc, !count_app. unfold count at 2 4 6. cbn [filter isInc].
    destruct (String.eqb l "failure");
      destruct (q (IncRequestCount "failure")), (q (HttpError _ _));
      cbn [Datatypes.length]; lia.
  - rewrite !count_app. unfold count at 2 4 6. cbn [filter isInc].
    destruct (q (ResponseWrite _)); cbn [Datatypes.length]; lia.
Qed.

End Counting.

(** Inside [cb.Execute] the metric is touched by the two callbacks only. *)
Lemma setState_counter (st : Settings) (l : string) (to : State) (t : Z)
  (b : CircuitBreaker) (e : Env) :
  (forall n a b' e', requestCount (onStateChange st n a b' e') l
                     = requestCount e' l) ->
  requestCount (snd (setState st to t b e)) l = requestCount e l.
Proof.
  intros H. unfold setState. cbn [snd]. apply H.
Qed.

Lemma beforeRequest_counter (st : Settings) (l : string) (t : Z)
  (b : CircuitBreaker) (e : Env) :
  (forall n a b' e', requestCount (onStateChange st n a b' e') l
                     = requestCount e' l) ->
  requestCount (snd (beforeRequest st t b e)) l = requestCount e l.
Proof.
  intros H. unfold beforeRequest. destruct (state b).
  - reflexivity.
  - destruct (_ || _); reflexivity.
  - destruct (expiry b <=? t); [|reflexivity].
    pose proof (setState_counter st l StateHalfOpen t b e H) as E.
    destruct (setState st StateHalfOpen t b e) as [b' e']. exact E.
Qed.

Lemma afterRequest_counter (st : Settings) (l : string) (g : Z)
  (success : bool) (t : Z) (b : CircuitBreaker) (e : Env) :
  (forall n a b' e', requestCount (onStateChange st n a b' e') l
                     = requestCount e' l) ->
  requestCount (snd (afterRequest st g success t b e)) l = requestCount e l
  \/ (success = false
      /\ exists c, requestCount (snd (afterRequest st g success t b e)) l
                   = requestCount (snd (readyToTrip st c e)) l).
Proof.
  intros H. unfold afterRequest. cbv zeta.
  destruct (negb _); [now left|].
  destruct (state (rollWindow st t b)).
  - destruct success; [now left|]. right. split; [reflexivity|].
    match goal with |- context [readyToTrip st ?c e] => exists c;
      destruct (readyToTrip st c e) as [trip e'] end.
    destruct trip; [|reflexivity]. cbn [snd]. apply setState_counter, H.
  - left. destruct success.
    + destruct (_ <=? _); [apply setState_counter, H | reflexivity].
    + apply setState_counter, H.
  - now left.
Qed.

Lemma Execute_counter (st : Settings) (l : string) (w : World) :
  (forall n a b' e', requestCount (onStateChange st n a b' e') l
                     = requestCount e' l) ->
  requestCount (env (snd (Execute st request w))) l = requestCount (env w) l
  \/ (isOperationFailure (CallExecute 0 (fst (Execute st request w))) = true
      /\ exists c e,
          requestCount e l = requestCount (env w) l
          /\ requestCount (env (snd (Execute st request w))) l
             = requestCount (snd (readyToTrip st c e)) l).
Proof.
  intros H. destruct w as [t0 e b calls dr np a r ov].
  unfold Execute. cbn [now cb env].
  pose proof (beforeRequest_counter st l t0 b e H) as HB.
  destruct (beforeRequest st t0 b e) as [[adm b1] e1]. cbn [snd] in HB.
  destruct adm as [gen|err]; [|left; exact HB].
  unfold request, callExternalAPI, setBreaker.
  cbn [now env cb apiCalls draws naps api rnd overshoot].
  destruct (statusCode (a calls)) as [code|]; cbn [snd fst].
  - match goal with |- context [afterRequest st gen true ?t ?bb ?ee] =>
      destruct (afterRequest_counter st l gen true t bb ee H)
        as [E|[E _]]; [|discriminate];
      destruct (afterRequest st gen true t bb ee) as [b2 e2] end.
    left. cbn [snd env] in *. congruence.
  - match goal with |- context [afterRequest st gen false ?t ?bb ?ee] =>
      destruct (afterRequest_counter st l gen false t bb ee H)
        as [E|[_ [c E]]];
      destruct (afterRequest st gen false t bb ee) as [b2 e2] end.
    + left. cbn [snd env] in *. congruence.
    + right. split; [reflexivity|]. exists c, e1. cbn [snd env] in *.
      split; [exact HB | exact E].
Qed.

Lemma OnStateChange_counter (l : string) (n : string) (a b : State)
  (e : Env) :
  (forall s, String.eqb (State_String s) l = false) ->
  requestCount (OnStateChange n a b e) l = requestCount e l.
Proof.
  intros H. unfold OnStateChange, incRequestCount, Printf, Inc.
  cbn [requestCount]. now rewrite H.
Qed.

Lemma incMetric_counter (l l' : string) (w : World) :
  requestCount (env (incMetric l' w)) l
  = if String.eqb l l' then S (requestCount (env w) l)
    else requestCount (env w) l.
Proof.
  unfold incMetric, setBreaker, incRequestCount, Inc. cbn [env requestCount].
  now rewrite String.eqb_sym.
Qed.

(** C8, as the code has it: the outcome is recorded once per retry loop,
    not once per attempt.  Over one request the handler increments
    [success] once when the loop ends in success and never otherwise, and
    [failure] once, after the loop and its 5 attempts, when all of them
    failed and never otherwise; the [success] counter grows by exactly
    that.  The [failure]
    counter grows by that and, besides, by at most one per attempt in which
    the operation ran and failed: [OnStateChange] touches neither label,
    and with a breaker whose callbacks leave the [failure] counter alone,
    as in [TestCircuitBreakerV3], a request adds to it exactly one when it
    fails and nothing when it succeeds; so what is left is what
    [ReadyToTrip] adds. *)
Theorem request_outcome_counters (st : Settings) (w : World) :
  (forall c e, requestCount (snd (readyToTrip st c e)) "failure"
               = requestCount e "failure") ->
  (forall n a b e, requestCount (onStateChange st n a b e) "failure"
                   = requestCount e "failure") ->
  let '(res, loop, _) := retryAPI w in
  let '(tr, w') := serveAPI w in
  let '(resq, _, _) :=
    retry (Execute st request) randFloat64 sleep incMetric w in
  let '(_, wq) :=
    handler (Execute st request) randFloat64 sleep incMetric w in
  let f := if failed res then 1%nat else 0%nat in
  count (isInc "success") tr = (1 - f)%nat
  /\ count (isInc "failure") tr = f
  /\ (if failed res
      then tr = (loop ++ [IncRequestCount "failure";
                          HttpError "Service Unavailable" 503])%list
           /\ count isCallExecute loop = 5%nat
      else True)
  /\ requestCount (env w') "success"
     = (requestCount (env w) "success" + (1 - f))%nat
  /\ (requestCount (env w) "failure" + f
      <= requestCount (env w') "failure"
      <= requestCount (env w) "failure" + f + count isOperationFailure tr)%nat
  /\ (forall n a b e,
         requestCount (OnStateChange n a b e) "success"
         = requestCount e "success"
         /\ requestCount (OnStateChange n a b e) "failure"
            = requestCount e "failure")
  /\ requestCount (env wq) "failure"
     = (requestCount (env w) "failure"
        + if failed resq then 1 else 0)%nat.
Proof.
  intros Hrt Hosc.
  assert (Hnames : forall l, l = "success" \/ l = "failure" ->
                   forall s, String.eqb (State_String s) l = false)
    by (intros l [-> | ->] s; destruct s; reflexivity).
  assert (Hobs : forall l, l = "success" \/ l = "failure" ->
                 forall n a b' e', requestCount (onStateChange settings n a b' e') l
                                   = requestCount e' l).
  { intros l Hl n a b' e'. apply OnStateChange_counter, Hnames, Hl. }
  (* the handler's own increments *)
  pose proof (handler_increments cbExecute randFloat64 sleep incMetric w)
    as Hown.
  pose proof (handler_increments (Execute st request) randFloat64 sleep
                incMetric w) as Hownq.
  (* the counter labelled success *)
  pose proof (handler_counter cbExecute randFloat64 sleep incMetric
                (fun v => requestCount (env v) "success") "success"
                (fun _ => false)) as Hs.
  (* the counter labelled failure *)
  pose proof (handler_counter cbExecute randFloat64 sleep incMetric
                (fun v => requestCount (env v) "failure") "failure"
                isOperationFailure) as Hf.
  (* the same with the callbacks of [st] *)
  pose proof (handler_counter (Execute st request) randFloat64 sleep
                incMetric
                (fun v => requestCount (env v) "failure") "failure"
                (fun _ => false)) as Hq.
  cbv beta in Hs, Hf, Hq.
  specialize (Hs ltac:(reflexivity) ltac:(reflexivity)
               ltac:(intros; apply incMetric_counter)).
  specialize (Hf ltac:(reflexivity) ltac:(reflexivity)
               ltac:(intros; apply incMetric_counter)).
  specialize (Hq ltac:(reflexivity) ltac:(reflexivity)
               ltac:(intros; apply incMetric_counter)).
  assert (Es : forall (i : Z) v,
    (requestCount (env v) "success"
     <= requestCount (env (snd (cbExecute v))) "success"
     <= requestCount (env v) "success" + 0)%nat).
  { intros _ v.
    destruct (Execute_counter settings "success" v
                (Hobs _ (or_introl eq_refl))) as [E|(_ & c & e0 & E0 & E)];
      unfold cbExecute; rewrite E; [lia|].
    cbn. rewrite E0. lia. }
  assert (Ef : forall (i : Z) v,
    (requestCount (env v) "failure"
     <= requestCount (env (snd (cbExecute v))) "failure"
     <= requestCount (env v) "failure"
        + (if isOperationFailure (CallExecute i (fst (cbExecute v)))
           then 1 else 0))%nat).
  { intros i v.
    destruct (Execute_counter settings "failure" v
                (Hobs _ (or_intror eq_refl))) as [E|(Hop & c & e0 & E0 & E)];
      unfold cbExecute; rewrite E; [lia|].
    change (isOperationFailure (CallExecute i (fst (Execute settings request v))))
      with (isOperationFailure (CallExecute 0 (fst (Execute settings request v)))).
    rewrite Hop. cbn. rewrite E0. lia. }
  assert (Eq : forall (i : Z) v,
    (requestCount (env v) "failure"
     <= requestCount (env (snd (Execute st request v))) "failure"
     <= requestCount (env v) "failure" + 0)%nat).
  { intros _ v.
    destruct (Execute_counter st "failure" v Hosc)
      as [E|(_ & c & e0 & E0 & E)]; rewrite E; [lia|].
    rewrite Hrt, E0. lia. }
  specialize (Hs Es w). specialize (Hf Ef w). specialize (Hq Eq w).
  assert (Hh : handler cbExecute randFloat64 sleep incMetric w
               = (let '(res, tr, w1) :=
                    retry cbExecute randFloat64 sleep incMetric w in
                  match snd res with
                  | Some _ =>
                      ((tr ++ [IncRequestCount "failure";
                               HttpError "Service Unavailable" 503])%list,
                       incMetric "failure" w1)
                  | None =>
                      ((tr ++ [ResponseWrite ("Request succeeded: "
                                              ++ Sprint (fst res))])%list,
                       w1)
                  end)) by reflexivity.
  unfold retryAPI, serveAPI in *.
  revert Hown Hh.
  destruct (retry cbExecute randFloat64 sleep incMetric w)
    as [[res tr0] w0].
  intros Hown Hh. revert Hown Hs Hf Hh.
  destruct (handler cbExecute randFloat64 sleep incMetric w) as [tr w'].
  intros Hown Hs Hf Hh.
  destruct (retry (Execute st request) randFloat64 sleep incMetric w)
    as [[resq trq0] wq0].
  destruct (handler (Execute st request) randFloat64 sleep incMetric w)
    as [trq wq].
  cbv zeta.
  assert (C0 : count (fun _ : Action => false) tr = 0%nat)
    by (unfold count; clear; induction tr; auto).
  assert (C0q : count (fun _ : Action => false) trq = 0%nat)
    by (unfold count; clear; induction trq; auto).
  split; [destruct (failed res); cbn; tauto|].
  split; [destruct (failed res); cbn; tauto|].
  split.
  { unfold failed in *. destruct (snd res); [|exact I].
    injection Hh as Htr _. split; [exact Htr|].
    destruct Hown as (_ & _ & H5). rewrite Htr, count_app in H5.
    unfold count at 2 in H5. cbn in H5. lia. }
  split; [destruct (failed res); lia|].
  split; [destruct (failed res); lia|].
  split.
  { intros n a b e. split; apply OnStateChange_counter, Hnames; auto. }
  destruct (failed resq); lia.
Qed.

(** ** Concrete runs *)

(** C1 as stated fails on both counts.  Against a downstream API that
    fails each call after 25 s, the calls end at 25, 50, 75 and 100 s: the
    rolling interval of 60 s elapses during the third, whose failure is not
    counted, and after four consecutive failures the breaker is still
    Closed, with a streak of one.  And when the breaker has tripped, a fifth
    call made 31 s later is admitted and runs the operation. *)
Lemma four_failures_need_not_trip :
  (forall k, (k < 4)%nat ->
             fst (cbExecute (executeN settings k slowOutage)) = opFailure)
  /\ state (cb (executeN settings 4 slowOutage)) = StateClosed
  /\ ConsecutiveFailures (counts (cb (executeN settings 4 slowOutage))) = 1
  /\ now (executeN settings 4 slowOutage) = 100 * Second
  /\ state (cb (executeN settings 4 apiAlwaysDown)) = StateOpen
  /\ apiCalls (executeN settings 4 apiAlwaysDown) = 4%nat
  /\ apiCalls (snd (cbExecute (idle (31 * Second)
                                 (executeN settings 4 apiAlwaysDown))))
     = 5%nat.
Proof.
  split.
  - intros k Hk.
    destruct k as [|[|[|[|k]]]]; [vm_compute; reflexivity .. | lia].
  - vm_compute. repeat split.
Qed.

Lemma four_failures_trip_witness :
  state (cb (snd (cbExecute (idle Second (snd (cbExecute (idle Second
     (snd (cbExecute (idle Second (snd (cbExecute
        (idle Second apiAlwaysDown)))))))))))))
  = StateOpen.
Proof.
  refine (proj1 (proj2 (proj2 (proj2 (proj2
    (four_failures_trip apiAlwaysDown Second Second Second Second
       (29 * Second) _ _ _ _ _)))))).
  - reflexivity.
  - reflexivity.
  - intros k _. reflexivity.
  - vm_compute. reflexivity.
  - vm_compute. reflexivity.
Defined.

Lemma retry_stops_at_first_success_witness :
  retryAPI apiRecovers
  = ((Some 200, None),
     ([CallExecute 0 opFailure; TimeSleep 500000000;
       CallExecute 1 opFailure; TimeSleep 1000000000]
      ++ [CallExecute (Z.of_nat 2) (Some 200, None);
          IncRequestCount "success"])%list,
     incMetric "success" (snd (cbExecute (iterations 2 0 apiRecovers))))
  /\ count isCallExecute
       [CallExecute 0 opFailure; TimeSleep 500000000;
        CallExecute 1 opFailure; TimeSleep 1000000000] = 2%nat
  /\ count isTimeSleep
       [CallExecute 0 opFailure; TimeSleep 500000000;
        CallExecute 1 opFailure; TimeSleep 1000000000] = 2%nat.
Proof.
  refine (proj2 (retry_stops_at_first_success cbExecute randFloat64 sleep
                   incMetric)
            2%nat apiRecovers (iterations 2 0 apiRecovers) opFailure _
            (Some 200, None) _ _ _ _ _).
  - lia.
  - vm_compute. reflexivity.
  - vm_compute. reflexivity.
  - reflexivity.
Defined.

(** C3 as stated fails: when the API is down, the fifth and last attempt
    fails and the loop still sleeps (8 s of the 16 s backoff) before it
    returns that failure. *)
Lemma retry_sleeps_after_last_attempt :
  let '(res, tr, _) := retryAPI apiAlwaysDown in
  res = (None, Some ErrOpenState)
  /\ tr = [CallExecute 0 opFailure; TimeSleep 500000000;
           CallExecute 1 opFailure; TimeSleep 1000000000;
           CallExecute 2 opFailure; TimeSleep 2000000000;
           CallExecute 3 opFailure; TimeSleep 4000000000;
           CallExecute 4 (None, Some ErrOpenState); TimeSleep 8000000000]
  /\ count isTimeSleep tr = count isCallExecute tr.
Proof.
  vm_compute. repeat split.
Qed.

Lemma retry_sleeps_after_every_failure_witness :
  retryAPI apiAlwaysDown
  = ((None, Some ErrOpenState),
     ([CallExecute 0 opFailure; TimeSleep 500000000;
       CallExecute 1 opFailure; TimeSleep 1000000000;
       CallExecute 2 opFailure; TimeSleep 2000000000;
       CallExecute 3 opFailure; TimeSleep 4000000000]
      ++ [CallExecute 4 (None, Some ErrOpenState);
          TimeSleep (exponentialBackoff 4 (Float64.Fin 1 (-1)))])%list,
     sleep (exponentialBackoff 4 (Float64.Fin 1 (-1)))
           (snd (randFloat64 (iterations 4 0 apiAlwaysDown)))).
Proof.
  refine (proj1 (proj2
    (retry_sleeps_after_every_failure cbExecute randFloat64 sleep incMetric
       4%nat apiAlwaysDown (iterations 4 0 apiAlwaysDown) opFailure
       [CallExecute 0 opFailure; TimeSleep 500000000;
        CallExecute 1 opFailure; TimeSleep 1000000000;
        CallExecute 2 opFailure; TimeSleep 2000000000;
        CallExecute 3 opFailure; TimeSleep 4000000000]
       (None, Some ErrOpenState) (iterations 4 0 apiAlwaysDown)
       (Float64.Fin 1 (-1))
       (snd (randFloat64 (iterations 4 0 apiAlwaysDown))) _ _ _ _))).
  - lia.
  - vm_compute. reflexivity.
  - apply cbExecute_open; vm_compute; reflexivity.
  - reflexivity.
Defined.

Lemma retry_counts_every_error_witness :
  retryLoop cbExecute randFloat64 sleep incMetric 1 4 (None, None) afterOutage
  = (let d := exponentialBackoff 4 (Float64.Fin 1 (-1)) in
     let '(res', tr, w') :=
       retryLoop cbExecute randFloat64 sleep incMetric 0 (4 + 1)
                 (None, Some ErrOpenState)
                 (sleep d (snd (randFloat64 afterOutage))) in
     (res', CallExecute 4 (None, Some ErrOpenState) :: TimeSleep d :: tr, w')).
Proof.
  refine (retry_counts_every_error cbExecute randFloat64 sleep incMetric
            0 4 (None, None) afterOutage None ErrOpenState afterOutage
            (Float64.Fin 1 (-1)) (snd (randFloat64 afterOutage)) _ _).
  - apply cbExecute_open; vm_compute; reflexivity.
  - reflexivity.
Defined.

Lemma fails_twice_then_succeeds_witness :
  let '(res, tr, w') := retryAPI apiRecovers in
  res = (Some 200, None)
  /\ (exists d0 d1,
         tr = [CallExecute 0 opFailure; TimeSleep d0;
               CallExecute 1 opFailure; TimeSleep d1;
               CallExecute 2 (Some 200, None); IncRequestCount "success"])
  /\ count isCallExecute tr = 3%nat
  /\ count isTimeSleep tr = 2%nat
  /\ apiCalls w' = (apiCalls apiRecovers + 3)%nat.
Proof.
  refine (fails_twice_then_succeeds apiRecovers 200 _ _ _ _ _).
  - reflexivity.
  - vm_compute. discriminate.
  - reflexivity.
  - reflexivity.
  - reflexivity.
Defined.

(** C8 as stated fails: two requests while the API is down make ten
    attempts, of which four run the operation (all four fail) and six are
    rejected by the open breaker; the [failure] counter ends at six. *)
Lemma failure_metric_is_not_per_attempt :
  let '(tr1, w1) := serveAPI apiAlwaysDown in
  let '(tr2, w2) := serveAPI w1 in
  count isCallExecute (tr1 ++ tr2) = 10%nat
  /\ count (fun a => isCallExecute a && retried a) (tr1 ++ tr2) = 10%nat
  /\ apiCalls w2 = 4%nat
  /\ requestCount (env w2) "failure" = 6%nat
  /\ requestCount (env w2) "success" = 0%nat.
Proof.
  vm_compute. repeat split.
Qed.

Lemma request_outcome_counters_witness :
  let '(res, loop, _) := retryAPI apiAlwaysDown in
  let '(tr, w') := serveAPI apiAlwaysDown in
  let '(resq, _, _) :=
    retry (Execute testSettings request) randFloat64 sleep incMetric
          apiAlwaysDown in
  let '(_, wq) :=
    handler (Execute testSettings request) randFloat64 sleep incMetric
            apiAlwaysDown in
  let f := if failed res then 1%nat else 0%nat in
  count (isInc "success") tr = (1 - f)%nat
  /\ count (isInc "failure") tr = f
  /\ (if failed res
      then tr = (loop ++ [IncRequestCount "failure";
                          HttpError "Service Unavailable" 503])%list
           /\ count isCallExecute loop = 5%nat
      else True)
  /\ requestCount (env w') "success"
     = (requestCount (env apiAlwaysDown) "success" + (1 - f))%nat
  /\ (requestCount (env apiAlwaysDown) "failure" + f
      <= requestCount (env w') "failure"
      <= requestCount (env apiAlwaysDown) "failure" + f
         + count isOperationFailure tr)%nat
  /\ (forall n a b e,
         requestCount (OnStateChange n a b e) "success"
         = requestCount e "success"
         /\ requestCount (OnStateChange n a b e) "failure"
            = requestCount e "failure")
  /\ requestCount (env wq) "failure"
     = (requestCount (env apiAlwaysDown) "failure"
        + if failed resq then 1 else 0)%nat.
Proof.
  refine (request_outcome_counters testSettings apiAlwaysDown _ _).
  - intros c e. reflexivity.
  - intros n a b e. reflexivity.
Defined.

(** ** Rounding and the backoff policy *)

Module Float64Facts.
Import Float64.

Lemma pow2_pos (n : Z) : 0 < 2 ^ n \/ (n < 0 /\ 2 ^ n = 0).
Proof.
  destruct (Z_lt_le_dec n 0) as [H|H].
  - right. split; [exact H | now apply Z.pow_neg_r].
  - left. now apply Z.pow_pos_nonneg.
Qed.

Lemma round_sig_zero (sh : Z) : round_sig 0 sh = 0.
Proof.
  unfold round_sig. destruct (sh <=? 0) eqn:Hsh; [reflexivity|].
  apply Z.leb_gt in Hsh.
  rewrite Z.div_0_l, Zmod_0_l by (apply Z.pow_nonzero; lia).
  assert (0 < 2 ^ (sh - 1)) by (apply Z.pow_pos_nonneg; lia).
  replace (2 ^ (sh - 1) <? 0) with false by (symmetry; apply Z.ltb_ge; lia).
  replace (2 ^ (sh - 1) =? 0) with false by (symmetry; apply Z.eqb_neq; lia).
  reflexivity.
Qed.

(** Rounding does not cross a multiple of the dropped power of two. *)
Lemma round_sig_bound (a sh N : Z) :
  0 <= a -> 0 <= sh -> a <= N * 2 ^ sh ->
  a / 2 ^ sh <= round_sig a sh <= N.
Proof.
  intros Ha Hsh Hle. unfold round_sig.
  destruct (sh <=? 0) eqn:H0.
  - apply Z.leb_le in H0. assert (sh = 0) by lia. subst sh.
    rewrite Z.pow_0_r, Z.div_1_r in *. lia.
  - apply Z.leb_gt in H0.
    assert (Hp : 0 < 2 ^ sh) by (apply Z.pow_pos_nonneg; lia).
    assert (Hh : 0 < 2 ^ (sh - 1)) by (apply Z.pow_pos_nonneg; lia).
    assert (Hq : a / 2 ^ sh <= N).
    { apply Z.div_le_upper_bound; [exact Hp | lia]. }
    destruct ((2 ^ (sh - 1) <? a mod 2 ^ sh)
              || ((2 ^ (sh - 1) =? a mod 2 ^ sh) && Z.odd (a / 2 ^ sh)))
      eqn:Hup; [|lia].
    assert (Hr : 0 < a mod 2 ^ sh).
    { apply orb_prop in Hup as [Hup|Hup].
      - apply Z.ltb_lt in Hup. lia.
      - apply andb_prop in Hup as [Hup _]. apply Z.eqb_eq in Hup. lia. }
    assert (a <> N * 2 ^ sh).
    { intros ->. rewrite Z.mod_mul in Hr; lia. }
    assert (a / 2 ^ sh < N).
    { apply Z.div_lt_upper_bound; [exact Hp | lia]. }
    lia.
Qed.

Lemma excess_nonneg (m e : Z) : 0 <= excess m e.
Proof. unfold excess. lia. Qed.

(** A non-negative value below a representable bound [M * 2^(e+s)] rounds
    to a finite value that is still below it. *)
Lemma round_bound (m e M s : Z) :
  0 <= m -> 0 < M < 2 ^ prec -> 0 <= s -> emin <= e + s ->
  m <= M * 2 ^ s -> Z.log2 M + (e + s) < emax ->
  exists q sh,
    round m e = Fin q (e + sh) /\ 0 <= sh <= s /\ 0 <= q <= M * 2 ^ (s - sh).
Proof.
  intros Hm HM Hs He Hle Hov.
  assert (Hsh : 0 <= excess m e <= s).
  { split; [apply excess_nonneg|]. unfold excess.
    rewrite Z.abs_eq by exact Hm.
    assert (Z.log2 m + 1 - prec <= s).
    { destruct (Z.eq_dec m 0) as [->|Hm0];
        [change (Z.log2 0) with 0; unfold prec; lia|].
      assert (Z.log2 m < prec + s); [|lia].
      apply Z.log2_lt_pow2; [lia|].
      rewrite Z.pow_add_r by (unfold prec; lia).
      assert (0 < 2 ^ s) by (apply Z.pow_pos_nonneg; lia). nia. }
    lia. }
  set (sh := excess m e) in *.
  assert (Hsplit : M * 2 ^ s = M * 2 ^ (s - sh) * 2 ^ sh).
  { rewrite <- Z.mul_assoc, <- Z.pow_add_r by lia. do 2 f_equal. lia. }
  assert (Hq : m / 2 ^ sh <= round_sig m sh <= M * 2 ^ (s - sh)).
  { apply round_sig_bound; lia. }
  assert (H0 : 0 <= m / 2 ^ sh).
  { apply Z.div_pos; [lia | apply Z.pow_pos_nonneg; lia]. }
  exists (Z.sgn m * round_sig m sh), sh.
  split; [|split; [lia|]].
  - unfold round. fold sh. rewrite Z.abs_eq by exact Hm.
    destruct (0 <? round_sig m sh) eqn:Hpos; [|reflexivity].
    apply Z.ltb_lt in Hpos.
    replace (emax <=? _) with false; [reflexivity|].
    symmetry. apply Z.leb_gt.
    assert (Z.log2 (round_sig m sh) <= Z.log2 (M * 2 ^ (s - sh)))
      by (apply Z.log2_le_mono; lia).
    rewrite Z.log2_mul_pow2 in H by lia. lia.
  - destruct (Z.eq_dec m 0) as [->|Hm0].
    + rewrite round_sig_zero, Z.mul_0_r. split; [lia|].
      assert (0 < 2 ^ (s - sh)) by (apply Z.pow_pos_nonneg; lia). nia.
    + rewrite Z.sgn_pos by lia. lia.
Qed.

Lemma of_int_small (a : Z) : Z.abs a < 2 ^ prec -> of_int a = Fin a 0.
Proof.
  intros Ha. unfold of_int, round.
  assert (Hl : Z.log2 (Z.abs a) < prec).
  { destruct (Z.eq_dec (Z.abs a) 0) as [->|H0];
      [change (Z.log2 0) with 0; unfold prec; lia|].
    apply Z.log2_lt_pow2; lia. }
  assert (Hex : excess a 0 = 0) by (unfold excess, emin, prec in *; lia).
  rewrite Hex. unfold round_sig. cbn [Z.leb Z.compare].
  replace (emax <=? Z.log2 (Z.abs a) + (0 + 0)) with false
    by (symmetry; apply Z.leb_gt; unfold emax, prec in *; lia).
  rewrite andb_false_r. f_equal. lia.
Qed.

(** The conversion of an integer of large magnitude keeps its sign and a
    large magnitude. *)
Lemma of_int_large (a : Z) :
  2 ^ prec <= Z.abs a ->
  (of_int a = (if a <? 0 then NegInf else PosInf)) \/
  (exists q sh, of_int a = Fin (Z.sgn a * q) sh
                /\ 0 < sh /\ 2 ^ (prec - 1) <= q).
Proof.
  intros Ha. unfold of_int, round.
  assert (H53 : 0 < 2 ^ prec) by (apply Z.pow_pos_nonneg; unfold prec; lia).
  assert (Hl : prec <= Z.log2 (Z.abs a)).
  { apply Z.log2_le_pow2; lia. }
  assert (Hex : excess a 0 = Z.log2 (Z.abs a) + 1 - prec)
    by (unfold excess, emin, prec in *; lia).
  rewrite Hex. set (sh := Z.log2 (Z.abs a) + 1 - prec) in *.
  set (q := round_sig (Z.abs a) sh).
  destruct ((0 <? q) && (emax <=? Z.log2 q + (0 + sh))); [now left|].
  right. exists q, sh. split; [f_equal | split; [lia|]].
  assert (Hp : 0 < 2 ^ sh) by (apply Z.pow_pos_nonneg; lia).
  assert (Hq : Z.abs a / 2 ^ sh <= q <= Z.abs a / 2 ^ sh + 1).
  { apply round_sig_bound; try lia.
    pose proof (Z.mul_succ_div_gt (Z.abs a) (2 ^ sh) Hp). lia. }
  assert (2 ^ (prec - 1) <= Z.abs a / 2 ^ sh); [|lia].
  apply Z.div_le_lower_bound; [exact Hp|].
  rewrite <- Z.pow_add_r by (unfold prec in *; lia).
  replace (sh + (prec - 1)) with (Z.log2 (Z.abs a)) by lia.
  apply Z.log2_spec. lia.
Qed.

(** A value that fits the format is not changed by rounding. *)
Lemma round_exact (m e : Z) :
  Z.abs m < 2 ^ prec -> emin <= e -> Z.log2 (Z.abs m) + e < emax ->
  round m e = Fin m e.
Proof.
  intros Ha He Hov. unfold round.
  assert (Hl : Z.log2 (Z.abs m) < prec).
  { destruct (Z.eq_dec (Z.abs m) 0) as [->|H0];
      [change (Z.log2 0) with 0; unfold prec; lia|].
    apply Z.log2_lt_pow2; lia. }
  assert (Hex : excess m e = 0) by (unfold excess, emin, prec in *; lia).
  rewrite Hex. unfold round_sig. cbn [Z.leb Z.compare].
  replace (emax <=? Z.log2 (Z.abs m) + (e + 0)) with false
    by (symmetry; apply Z.leb_gt; lia).
  rewrite andb_false_r, Z.add_0_r. f_equal. lia.
Qed.

Lemma round_zero (e : Z) : exists e', round 0 e = Fin 0 e'.
Proof.
  unfold round. change (Z.abs 0) with 0. rewrite round_sig_zero.
  cbn [Z.ltb Z.compare andb Z.sgn Z.mul]. eauto.
Qed.

Lemma pow2_of_int (a : Z) :
  pow2 (of_int a)
  = if emax <=? a then PosInf else if a <? emin then Fin 0 0 else Fin 1 a.
Proof.
  assert (H53 : 2 ^ prec = 9007199254740992) by reflexivity.
  assert (H52 : 2 ^ (prec - 1) = 4503599627370496) by reflexivity.
  destruct (Z_lt_le_dec (Z.abs a) (2 ^ prec)) as [Hs|Hl].
  - rewrite of_int_small by exact Hs. unfold pow2, trunc.
    change (0 <=? 0) with true. cbv iota.
    now rewrite Z.pow_0_r, Z.mul_1_r.
  - destruct (of_int_large a Hl) as [H|(q & sh & H & Hsh & Hq)]; rewrite H.
    + destruct (a <? 0) eqn:Hneg; cbn [pow2].
      * apply Z.ltb_lt in Hneg.
        replace (emax <=? a) with false
          by (symmetry; apply Z.leb_gt; unfold emax; lia).
        replace (a <? emin) with true
          by (symmetry; apply Z.ltb_lt; unfold emin; lia).
        reflexivity.
      * apply Z.ltb_ge in Hneg.
        replace (emax <=? a) with true
          by (symmetry; apply Z.leb_le; unfold emax; lia).
        reflexivity.
    + unfold pow2, trunc.
      replace (0 <=? sh) with true by (symmetry; apply Z.leb_le; lia).
      assert (H2 : 2 <= 2 ^ sh).
      { change 2 with (2 ^ 1) at 1. apply Z.pow_le_mono_r; lia. }
      destruct (Z_lt_le_dec a 0) as [Hneg|Hpos].
      * rewrite Z.sgn_neg by lia.
        replace (emax <=? -1 * q * 2 ^ sh) with false
          by (symmetry; apply Z.leb_gt; unfold emax; nia).
        replace (-1 * q * 2 ^ sh <? emin) with true
          by (symmetry; apply Z.ltb_lt; unfold emin; nia).
        replace (emax <=? a) with false
          by (symmetry; apply Z.leb_gt; unfold emax; lia).
        replace (a <? emin) with true
          by (symmetry; apply Z.ltb_lt; unfold emin; lia).
        reflexivity.
      * rewrite Z.sgn_pos by lia.
        replace (emax <=? 1 * q * 2 ^ sh) with true
          by (symmetry; apply Z.leb_le; unfold emax; nia).
        replace (emax <=? a) with true
          by (symmetry; apply Z.leb_le; unfold emax; lia).
        reflexivity.
Qed.

(** The product of a random number of [[0, 1)] and a positive representable
    bound [M * 2^E]: a finite value whose integer part lies between zero and
    the bound. *)
Lemma jitter_bound (r : t) (M E : Z) :
  unit_interval r -> 0 < M < 2 ^ prec -> emin <= E ->
  Z.log2 M + E < emax ->
  exists q e',
    mul r (Fin M E) = Fin q e'
    /\ 0 <= trunc q e'
    /\ (0 <= E -> trunc q e' <= M * 2 ^ E)
    /\ (E < 0 -> trunc q e' <= M / 2 ^ (- E)).
Proof.
  intros Hr HM HE Hov. destruct r as [m e| | |]; try contradiction.
  destruct Hr as (Hm & He & Hlt). cbn [mul].
  destruct (Z.eq_dec m 0) as [->|Hm0].
  { destruct (round_zero (e + E)) as [e' He']. rewrite Z.mul_0_l, He'.
    exists 0, e'. split; [reflexivity|].
    assert (Ht : trunc 0 e' = 0).
    { unfold trunc. destruct (0 <=? e') eqn:X; [reflexivity|].
      apply Z.leb_gt in X.
      apply Z.quot_0_l. apply Z.pow_nonzero; lia. }
    rewrite Ht. split; [lia|]. split; intros.
    - assert (0 < 2 ^ E) by (apply Z.pow_pos_nonneg; lia). nia.
    - apply Z.div_pos; [lia | apply Z.pow_pos_nonneg; lia]. }
  assert (Hs : 0 < - e).
  { destruct (Z_lt_le_dec 0 (- e)) as [H|H]; [exact H|].
    assert (2 ^ (- e) <= 1); [|specialize (Hlt ltac:(lia)); lia].
    destruct (Z.eq_dec e 0) as [->|]; [cbn; lia|].
    rewrite Z.pow_neg_r; lia. }
  specialize (Hlt ltac:(lia)).
  destruct (round_bound (m * M) (e + E) M (- e))
    as (q & sh & Hround & Hsh & Hq); try lia.
  { rewrite (Z.mul_comm m M). apply Z.mul_le_mono_nonneg_l; lia. }
  set (d := - e - sh) in *.
  exists q, (E - d). split.
  { rewrite Hround. f_equal. unfold d. lia. }
  assert (Hd : 0 <= d) by (unfold d; lia).
  assert (Hpd : 0 < 2 ^ d) by (apply Z.pow_pos_nonneg; lia).
  unfold trunc. destruct (0 <=? E - d) eqn:Hsign.
  - apply Z.leb_le in Hsign.
    assert (Hp : 0 < 2 ^ (E - d)) by (apply Z.pow_pos_nonneg; lia).
    split; [nia|]. split; [|lia]. intros _.
    replace E with (d + (E - d)) at 2 by lia.
    rewrite Z.pow_add_r by lia. nia.
  - apply Z.leb_gt in Hsign.
    assert (Hp : 0 < 2 ^ (- (E - d))) by (apply Z.pow_pos_nonneg; lia).
    rewrite Z.quot_div_nonneg by lia.
    split; [apply Z.div_pos; lia|]. split; intros HE0.
    + apply Z.div_le_upper_bound; [lia|].
      rewrite (Z.mul_comm _ (M * 2 ^ E)), <- Z.mul_assoc, <- Z.pow_add_r
        by lia.
      replace (E + - (E - d)) with d by lia. lia.
    + replace (- (E - d)) with (d + - E) by lia.
      rewrite Z.pow_add_r, <- Z.div_div by lia.
      apply Z.div_le_mono; [apply Z.pow_pos_nonneg; lia|].
      apply Z.div_le_upper_bound; lia.
Qed.

End Float64Facts.

(** The capped backoff, before jitter. *)
Lemma cappedBackoff_value (a : Z) :
  cappedBackoff a
  = if 5 <=? a then Float64.Fin (30 * Second) 0
    else if Float64.emin <=? a then Float64.Fin Second a
    else Float64.Fin 0 0.
Proof.
  unfold cappedBackoff. rewrite Float64Facts.pow2_of_int.
  change (Float64.of_int Second) with (Float64.Fin Second 0).
  change (Float64.of_int (30 * Second)) with (Float64.Fin (30 * Second) 0).
  destruct (Float64.emax <=? a) eqn:Hmax.
  { apply Z.leb_le in Hmax. unfold Float64.emax in Hmax.
    replace (5 <=? a) with true by (symmetry; apply Z.leb_le; lia).
    reflexivity. }
  apply Z.leb_gt in Hmax. unfold Float64.emax in Hmax.
  destruct (a <? Float64.emin) eqn:Hmin.
  { apply Z.ltb_lt in Hmin. unfold Float64.emin in *.
    replace (5 <=? a) with false by (symmetry; apply Z.leb_gt; lia).
    replace (-1074 <=? a) with false by (symmetry; apply Z.leb_gt; lia).
    reflexivity. }
  apply Z.ltb_ge in Hmin.
  replace (Float64.emin <=? a) with true by (symmetry; apply Z.leb_le; lia).
  unfold Float64.emin in Hmin.
  cbn [Float64.mul]. rewrite Z.mul_1_r, Z.add_0_l.
  assert (Hlog : Z.log2 (Z.abs Second) = 29) by reflexivity.
  destruct (Z_lt_le_dec a 995) as [Hlow|Hhigh].
  - rewrite Float64Facts.round_exact;
      [| reflexivity | unfold Float64.emin; lia
       | rewrite Hlog; unfold Float64.emax; lia].
    unfold Float64.gtb.
    destruct (Z_lt_le_dec a 0) as [Hneg|Hpos].
    + rewrite Z.min_l by lia.
      replace (5 <=? a) with false by (symmetry; apply Z.leb_gt; lia).
      replace (a - a) with 0 by lia. rewrite Z.pow_0_r.
      assert (1 <= 2 ^ (0 - a)).
      { change 1 with (2 ^ 0). apply Z.pow_le_mono_r; lia. }
      replace (_ <? _) with false; [reflexivity|].
      symmetry. apply Z.ltb_ge. unfold Second. lia.
    + rewrite Z.min_r by lia. rewrite !Z.sub_0_r, Z.pow_0_r.
      destruct (5 <=? a) eqn:H5.
      * apply Z.leb_le in H5.
        assert (2 ^ 5 <= 2 ^ a) by (apply Z.pow_le_mono_r; lia).
        change (2 ^ 5) with 32 in *.
        replace (_ <? _) with true; [reflexivity|].
        symmetry. apply Z.ltb_lt. unfold Second. lia.
      * apply Z.leb_gt in H5.
        assert (2 ^ a <= 2 ^ 4) by (apply Z.pow_le_mono_r; lia).
        change (2 ^ 4) with 16 in *.
        replace (_ <? _) with false; [reflexivity|].
        symmetry. apply Z.ltb_ge. unfold Second. lia.
  - replace (5 <=? a) with true by (symmetry; apply Z.leb_le; lia).
    assert (Hinf : Float64.round Second a = Float64.PosInf).
    { unfold Float64.round.
      assert (Hex : Float64.excess Second a = 0).
      { unfold Float64.excess. rewrite Hlog.
        unfold Float64.prec, Float64.emin. lia. }
      rewrite Hex. unfold Float64.round_sig. cbn [Z.leb Z.compare].
      change (0 <? Z.abs Second) with true. rewrite Hlog.
      replace (Float64.emax <=? 29 + (a + 0)) with true
        by (symmetry; apply Z.leb_le; unfold Float64.emax; lia).
      reflexivity. }
    rewrite Hinf. reflexivity.
Qed.

Lemma to_int64_fits (q e : Z) :
  0 <= Float64.trunc q e <= 30 * Second ->
  Float64.to_int64 (Float64.Fin q e) = Float64.trunc q e.
Proof.
  intros H. unfold Float64.to_int64.
  replace (Float64.min_int64 <=? Float64.trunc q e) with true
    by (symmetry; apply Z.leb_le; unfold Float64.min_int64; cbn; lia).
  replace (Float64.trunc q e <=? Float64.max_int64) with true
    by (symmetry; apply Z.leb_le; unfold Float64.max_int64, Second in *;
        cbn; lia).
  reflexivity.
Qed.

Lemma computedDelay_value (a : Z) :
  0 <= a ->
  computedDelay a = if 5 <=? a then 30 * Second else Second * 2 ^ a.
Proof.
  intros Ha. unfold computedDelay. destruct (5 <=? a) eqn:H5.
  - apply Z.leb_le in H5.
    assert (2 ^ 5 <= 2 ^ a) by (apply Z.pow_le_mono_r; lia).
    change (2 ^ 5) with 32 in *. unfold Second. lia.
  - apply Z.leb_gt in H5.
    assert (2 ^ a <= 2 ^ 4) by (apply Z.pow_le_mono_r; lia).
    change (2 ^ 4) with 16 in *. unfold Second. lia.
Qed.

(** The range of the backoff, for every attempt. *)
Lemma exponentialBackoff_range (a : Z) (r : Float64.t) :
  Float64.unit_interval r ->
  0 <= exponentialBackoff a r
  /\ (0 <= a -> exponentialBackoff a r <= computedDelay a)
  /\ (a < 0 -> exponentialBackoff a r < Second).
Proof.
  intros Hr. unfold exponentialBackoff. cbv zeta.
  rewrite cappedBackoff_value.
  destruct (5 <=? a) eqn:H5.
  - apply Z.leb_le in H5.
    destruct (Float64Facts.jitter_bound r (30 * Second) 0 Hr)
      as (q & e' & -> & H0 & Hup & _);
      [split; reflexivity | discriminate | reflexivity |].
    specialize (Hup ltac:(lia)). rewrite Z.pow_0_r, Z.mul_1_r in Hup.
    rewrite to_int64_fits by lia.
    rewrite computedDelay_value, (proj2 (Z.leb_le 5 a) H5) by lia. lia.
  - apply Z.leb_gt in H5. destruct (Float64.emin <=? a) eqn:Hmin.
    + apply Z.leb_le in Hmin. unfold Float64.emin in Hmin.
      destruct (Float64Facts.jitter_bound r Second a Hr)
        as (q & e' & -> & H0 & Hup & Hdown);
        [split; reflexivity | unfold Float64.emin; lia
         | change (Z.log2 Second) with 29; unfold Float64.emax; lia |].
      destruct (Z_lt_le_dec a 0) as [Hneg|Hpos].
      * specialize (Hdown Hneg).
        assert (2 <= 2 ^ (- a)).
        { change 2 with (2 ^ 1) at 1. apply Z.pow_le_mono_r; lia. }
        assert (Second / 2 ^ (- a) < Second).
        { apply Z.div_lt_upper_bound; unfold Second; lia. }
        rewrite to_int64_fits by (unfold Second in *; lia). lia.
      * specialize (Hup Hpos).
        assert (2 ^ a <= 2 ^ 4) by (apply Z.pow_le_mono_r; lia).
        change (2 ^ 4) with 16 in *.
        rewrite to_int64_fits by (unfold Second in *; lia).
        rewrite computedDelay_value by lia.
        replace (5 <=? a) with false by (symmetry; apply Z.leb_gt; lia).
        lia.
    + apply Z.leb_gt in Hmin. unfold Float64.emin in Hmin.
      destruct r as [m e| | |]; try contradiction. cbn [Float64.mul].
      rewrite Z.mul_0_r.
      destruct (Float64Facts.round_zero (e + 0)) as [e' ->].
      assert (Ht : Float64.trunc 0 e' = 0).
      { unfold Float64.trunc. destruct (0 <=? e') eqn:X; [reflexivity|].
        apply Z.leb_gt in X. apply Z.quot_0_l. apply Z.pow_nonzero; lia. }
      rewrite to_int64_fits by (rewrite Ht; unfold Second; lia).
      rewrite Ht. unfold Second. lia.
Qed.

Lemma trunc_zero (e : Z) : Float64.trunc 0 e = 0.
Proof.
  unfold Float64.trunc. destruct (0 <=? e) eqn:X; [reflexivity|].
  apply Z.leb_gt in X. apply Z.quot_0_l. apply Z.pow_nonzero; lia.
Qed.

(** The jitter is the drawn fraction of the backoff: the product of a
    random number [m * 2^e] of [[0, 1)] and an integer backoff [M * 2^E]
    below [2^52], converted to an integer, is the integer part of the exact
    product or, when rounding the product to a float64 reaches the next
    integer, one more. *)
Lemma jitter_fraction (m e M E : Z) :
  Float64.unit_interval (Float64.Fin m e) ->
  0 < M -> 0 <= E -> M * 2 ^ E < 2 ^ (Float64.prec - 1) ->
  exists q e',
    Float64.mul (Float64.Fin m e) (Float64.Fin M E) = Float64.Fin q e'
    /\ m * (M * 2 ^ E) / 2 ^ (- e) <= Float64.trunc q e'
       <= m * (M * 2 ^ E) / 2 ^ (- e) + 1.
Proof.
  intros Hr HM HE Hsmall.
  assert (HpE : 0 < 2 ^ E) by (apply Z.pow_pos_nonneg; lia).
  assert (HMs : M < 2 ^ (Float64.prec - 1)) by nia.
  assert (HlM : Z.log2 M + E < Float64.prec - 1).
  { rewrite Z.add_comm, <- Z.log2_mul_pow2 by lia.
    apply Z.log2_lt_pow2; [nia | exact Hsmall]. }
  destruct (Float64Facts.jitter_bound (Float64.Fin m e) M E Hr)
    as (q0 & e0 & Hmul & _).
  { split; [lia|]. eapply Z.lt_trans; [exact HMs|].
    apply Z.pow_lt_mono_r; unfold Float64.prec; lia. }
  { unfold Float64.emin; lia. }
  { unfold Float64.prec, Float64.emax in *. lia. }
  destruct Hr as (Hm & He & Hlt). cbn [Float64.mul] in *.
  destruct (Z.eq_dec m 0) as [->|Hm0].
  { rewrite Z.mul_0_l in *.
    destruct (Float64Facts.round_zero (e + E)) as [e1 He1].
    exists 0, e1. split; [exact He1|].
    rewrite trunc_zero.
    rewrite (Z.mul_0_l (M * 2 ^ E)).
    replace (0 / 2 ^ (- e)) with 0 by (now destruct (2 ^ (- e))). lia. }
  specialize (Hlt ltac:(lia)).
  assert (Hs : 0 < - e).
  { destruct (Z_lt_le_dec 0 (- e)) as [H|H]; [exact H|].
    assert (2 ^ (- e) <= 1); [|lia].
    destruct (Z.eq_dec e 0) as [->|]; [cbn; lia|].
    rewrite Z.pow_neg_r; lia. }
  set (s := - e) in *.
  assert (Hps : 0 < 2 ^ s) by (apply Z.pow_pos_nonneg; lia).
  replace (m * (M * 2 ^ E)) with (m * M * 2 ^ E) by ring.
  set (a := m * M) in *.
  assert (Ha : 0 < a) by (unfold a; nia).
  assert (Hale : a <= M * 2 ^ s) by (unfold a; nia).
  set (sh := Float64.excess a (e + E)) in *.
  assert (Hlog : Z.log2 a < Float64.prec + s).
  { apply Z.log2_lt_pow2; [lia|].
    rewrite Z.pow_add_r by (unfold Float64.prec; lia).
    assert (M < 2 ^ Float64.prec); [|nia].
    eapply Z.lt_trans; [exact HMs|].
    apply Z.pow_lt_mono_r; unfold Float64.prec; lia. }
  assert (Hshdef : sh = Z.max 0 (Z.log2 a + 1 - Float64.prec)).
  { unfold sh, Float64.excess. rewrite Z.abs_eq by lia.
    unfold Float64.emin in *. unfold s in *. lia. }
  assert (Hsh : 0 <= sh <= s) by lia.
  assert (Hpsh : 0 < 2 ^ sh) by (apply Z.pow_pos_nonneg; lia).
  unfold Float64.round in Hmul |- *. fold sh in Hmul |- *.
  rewrite Z.abs_eq, Z.sgn_pos, Z.mul_1_l in Hmul |- * by lia.
  set (q := Float64.round_sig a sh) in *.
  destruct ((0 <? q) && (Float64.emax <=? Z.log2 q + (e + E + sh)));
    [destruct (a <? 0); discriminate|].
  clear Hmul q0 e0.
  exists q, (e + E + sh). split; [reflexivity|].
  set (d := s - sh).
  assert (Hd : 0 <= d) by (unfold d; lia).
  assert (Hpd : 0 < 2 ^ d) by (apply Z.pow_pos_nonneg; lia).
  assert (Hq1 : a / 2 ^ sh <= q <= a / 2 ^ sh + 1).
  { apply Float64Facts.round_sig_bound; try lia.
    pose proof (Z.mul_succ_div_gt a (2 ^ sh) Hpsh). lia. }
  assert (Hq2 : q <= M * 2 ^ d).
  { apply (Float64Facts.round_sig_bound a sh (M * 2 ^ d)); try lia.
    rewrite <- Z.mul_assoc, <- Z.pow_add_r by lia.
    replace (d + sh) with s by (unfold d; lia). exact Hale. }
  assert (Hp0 : 0 <= a / 2 ^ sh) by (apply Z.div_pos; lia).
  replace (e + E + sh) with (E - d) by (unfold d, s; lia).
  destruct (Z.eq_dec sh 0) as [Hz|Hnz].
  - (* the product is exact *)
    assert (Hqa : q = a).
    { unfold q, Float64.round_sig. rewrite Hz. reflexivity. }
    assert (Hds : d = s) by (unfold d; lia).
    rewrite Hqa, Hds. unfold Float64.trunc.
    destruct (0 <=? E - s) eqn:Hsign.
    + apply Z.leb_le in Hsign.
      replace (2 ^ E) with (2 ^ (E - s) * 2 ^ s)
        by (rewrite <- Z.pow_add_r by lia; f_equal; lia).
      rewrite Z.mul_assoc, Z.div_mul by lia. lia.
    + apply Z.leb_gt in Hsign.
      assert (Hp : 0 < 2 ^ (- (E - s))) by (apply Z.pow_pos_nonneg; lia).
      rewrite Z.quot_div_nonneg by lia.
      replace (2 ^ s) with (2 ^ (- (E - s)) * 2 ^ E)
        by (rewrite <- Z.pow_add_r by lia; f_equal; lia).
      rewrite Z.div_mul_cancel_r by lia. lia.
  - (* 53 bits are kept: the dropped bits are below the unit *)
    assert (Hla : Z.log2 a = sh + (Float64.prec - 1))
      by (unfold Float64.prec in *; lia).
    assert (Hbig : 2 ^ (Float64.prec - 1) <= a / 2 ^ sh).
    { apply Z.div_le_lower_bound; [lia|].
      rewrite <- Z.pow_add_r by (unfold Float64.prec; lia).
      rewrite <- Hla. apply Z.log2_spec. lia. }
    assert (Hneg : E - d < 0).
    { destruct (Z_lt_le_dec (E - d) 0) as [H|H]; [exact H|].
      assert (2 ^ d <= 2 ^ E) by (apply Z.pow_le_mono_r; lia).
      assert (M * 2 ^ d <= M * 2 ^ E) by nia. lia. }
    unfold Float64.trunc.
    replace (0 <=? E - d) with false by (symmetry; apply Z.leb_gt; lia).
    set (k := - (E - d)).
    assert (Hk : 0 < k) by (unfold k; lia).
    assert (Hpk : 0 < 2 ^ k) by (apply Z.pow_pos_nonneg; lia).
    rewrite Z.quot_div_nonneg by lia.
    replace (2 ^ s) with (2 ^ sh * 2 ^ k * 2 ^ E)
      by (rewrite <- !Z.pow_add_r by lia; f_equal; unfold k, d; lia).
    rewrite Z.div_mul_cancel_r by lia.
    rewrite <- Z.div_div by lia.
    set (p := a / 2 ^ sh) in *.
    split.
    + apply Z.div_le_mono; lia.
    + assert (q / 2 ^ k <= (p + 1 * 2 ^ k) / 2 ^ k)
        by (apply Z.div_le_mono; lia).
      rewrite Z.div_add in H by lia. lia.
Qed.

(** C4: for every non-negative attempt, however large, the delay computed
    before jitter is exactly [min(1s * 2^attempt, 30s)], positive and at
    most 30 s, and [exponentialBackoff] returns a duration between zero and
    that delay, for every value in [[0, 1)] that [rand.Float64] returns;
    the duration is the drawn fraction of the delay: for the random number
    [m * 2^e] it is the integer part of [m * 2^e * delay], or one
    nanosecond more when the float64 product rounds up to the next integer;
    with the random number one half it is half of the delay. *)
Theorem exponentialBackoff_within_computed_delay (attempt : Z)
  (r : Float64.t) :
  0 <= attempt ->
  Float64.unit_interval r ->
  0 <= exponentialBackoff attempt r <= computedDelay attempt
  /\ Float64.to_int64 (cappedBackoff attempt) = computedDelay attempt
  /\ 0 < computedDelay attempt <= 30 * Second
  /\ 2 * exponentialBackoff attempt (Float64.Fin 1 (-1))
     = computedDelay attempt
  /\ match r with
     | Float64.Fin m e =>
         m * computedDelay attempt / 2 ^ (- e)
         <= exponentialBackoff attempt r
         <= m * computedDelay attempt / 2 ^ (- e) + 1
     | _ => False
     end.
Proof.
  intros Ha Hr.
  destruct (exponentialBackoff_range attempt r Hr) as (H0 & Hup & _).
  split; [split; [exact H0 | exact (Hup Ha)]|].
  assert (Hfrac : match r with
     | Float64.Fin m e =>
         m * computedDelay attempt / 2 ^ (- e)
         <= exponentialBackoff attempt r
         <= m * computedDelay attempt / 2 ^ (- e) + 1
     | _ => False
     end).
  { destruct r as [m e| | |]; try contradiction.
    specialize (Hup Ha). revert H0 Hup.
    unfold exponentialBackoff. cbv zeta.
    rewrite cappedBackoff_value, computedDelay_value by exact Ha.
    destruct (5 <=? attempt) eqn:H5.
    - destruct (jitter_fraction m e (30 * Second) 0 Hr)
        as (q & e' & -> & Hq);
        [reflexivity | lia | reflexivity |].
      rewrite Z.pow_0_r, Z.mul_1_r in Hq. intros H0 Hup.
      assert (Hfit : Float64.to_int64 (Float64.Fin q e')
                     = Float64.trunc q e').
      { unfold Float64.to_int64 in *.
        destruct ((Float64.min_int64 <=? Float64.trunc q e')
                  && (Float64.trunc q e' <=? Float64.max_int64));
          [reflexivity|].
        unfold Float64.min_int64 in H0. cbn in H0. lia. }
      rewrite Hfit. exact Hq.
    - apply Z.leb_gt in H5.
      replace (Float64.emin <=? attempt) with true
        by (symmetry; apply Z.leb_le; unfold Float64.emin; lia).
      assert (P4 : 2 ^ attempt <= 2 ^ 4) by (apply Z.pow_le_mono_r; lia).
      change (2 ^ 4) with 16 in *.
      assert (P0 : 0 < 2 ^ attempt) by (apply Z.pow_pos_nonneg; lia).
      destruct (jitter_fraction m e Second attempt Hr)
        as (q & e' & -> & Hq);
        [reflexivity | exact Ha
         | change (2 ^ (Float64.prec - 1)) with 4503599627370496;
           unfold Second; lia |].
      intros H0 Hup.
      assert (Hfit : Float64.to_int64 (Float64.Fin q e')
                     = Float64.trunc q e').
      { unfold Float64.to_int64 in *.
        destruct ((Float64.min_int64 <=? Float64.trunc q e')
                  && (Float64.trunc q e' <=? Float64.max_int64));
          [reflexivity|].
        unfold Float64.min_int64 in H0. cbn in H0. lia. }
      rewrite Hfit. exact Hq. }
  unfold exponentialBackoff. cbv zeta.
  rewrite cappedBackoff_value, computedDelay_value by exact Ha.
  destruct (5 <=? attempt) eqn:H5.
  - split; [reflexivity|]. split; [split; reflexivity || discriminate|].
    split; [reflexivity|].
    revert Hfrac. unfold exponentialBackoff. cbv zeta.
    rewrite cappedBackoff_value, computedDelay_value, H5 by exact Ha.
    exact (fun H => H).
  - apply Z.leb_gt in H5.
    replace (Float64.emin <=? attempt) with true
      by (symmetry; apply Z.leb_le; unfold Float64.emin; lia).
    revert Hfrac. unfold exponentialBackoff. cbv zeta.
    rewrite cappedBackoff_value, computedDelay_value by exact Ha.
    replace (5 <=? attempt) with false by (symmetry; apply Z.leb_gt; lia).
    replace (Float64.emin <=? attempt) with true
      by (symmetry; apply Z.leb_le; unfold Float64.emin; lia).
    intros Hfrac.
    assert (Hcases : attempt = 0 \/ attempt = 1 \/ attempt = 2
                     \/ attempt = 3 \/ attempt = 4) by lia.
    destruct Hcases as [->|[->|[->|[->| ->]]]];
      (split; [reflexivity|]; split; [split; reflexivity || discriminate|];
       split; [reflexivity | exact Hfrac]).
Qed.

Lemma exponentialBackoff_within_computed_delay_witness :
  3 * computedDelay 3 / 2 ^ (- (-2))
  <= exponentialBackoff 3 (Float64.Fin 3 (-2))
  <= 3 * computedDelay 3 / 2 ^ (- (-2)) + 1.
Proof.
  refine (proj2 (proj2 (proj2 (proj2
    (exponentialBackoff_within_computed_delay 3 (Float64.Fin 3 (-2)) _ _))))).
  - discriminate.
  - split; [split; [discriminate | reflexivity]|].
    split; [discriminate | intros _; reflexivity].
Defined.

(** C10: [exponentialBackoff] returns a duration between zero and 30 s for
    every integer attempt, and never the out-of-range value of the
    conversion; for a negative attempt the delay before jitter is
    [1s * 2^attempt] (zero once [2^attempt] underflows), and the duration
    returned is below one second. *)
Theorem exponentialBackoff_total (attempt : Z) (r : Float64.t) :
  Float64.unit_interval r ->
  0 <= exponentialBackoff attempt r <= 30 * Second
  /\ (attempt < 0 ->
      exponentialBackoff attempt r < Second
      /\ cappedBackoff attempt
         = if Float64.emin <=? attempt then Float64.Fin Second attempt
           else Float64.Fin 0 0).
Proof.
  intros Hr.
  destruct (exponentialBackoff_range attempt r Hr) as (H0 & Hup & Hneg).
  split; [split; [exact H0|]|].
  - destruct (Z_lt_le_dec attempt 0) as [Hn|Hp].
    + specialize (Hneg Hn). unfold Second in *. lia.
    + specialize (Hup Hp). unfold computedDelay in Hup. lia.
  - intros Hn. split; [exact (Hneg Hn)|].
    rewrite cappedBackoff_value.
    replace (5 <=? attempt) with false by (symmetry; apply Z.leb_gt; lia).
    reflexivity.
Qed.

Lemma exponentialBackoff_total_witness :
  exponentialBackoff (-1) (Float64.Fin 3 (-2)) < Second.
Proof.
  refine (proj1 (proj2 (exponentialBackoff_total (-1) (Float64.Fin 3 (-2)) _)
                   _)).
  - split; [split; [discriminate | reflexivity]|].
    split; [discriminate | intros _; reflexivity].
  - reflexivity.
Defined.

(** * Further properties *)

(** ** The backoff policy for every attempt *)

Lemma cappedBackoff_finite (a : Z) :
  exists M E, cappedBackoff a = Float64.Fin M E.
Proof.
  rewrite cappedBackoff_value.
  destruct (5 <=? a); [eauto|]. destruct (Float64.emin <=? a); eauto.
Qed.

(** X1: when [rand.Float64] returns zero, the backoff is zero for every
    attempt: full jitter allows a retry without any delay. *)
Theorem exponentialBackoff_zero_draw (attempt e : Z) :
  exponentialBackoff attempt (Float64.Fin 0 e) = 0.
Proof.
  unfold exponentialBackoff. cbv zeta.
  destruct (cappedBackoff_finite attempt) as (M & E & ->).
  cbn [Float64.mul]. rewrite Z.mul_0_l.
  destruct (Float64Facts.round_zero (e + E)) as [e' ->].
  rewrite to_int64_fits; rewrite trunc_zero; [reflexivity|].
  unfold Second. lia.
Qed.

(** X2: from attempt 5 on the cap of 30 s applies: the delay before jitter
    is exactly 30 s and the backoff no longer depends on the attempt,
    however large it is. *)
Theorem exponentialBackoff_plateau (attempt : Z) (r : Float64.t) :
  5 <= attempt ->
  cappedBackoff attempt = Float64.Fin (30 * Second) 0
  /\ exponentialBackoff attempt r = exponentialBackoff 5 r.
Proof.
  intros H5. unfold exponentialBackoff. cbv zeta.
  rewrite !cappedBackoff_value.
  replace (5 <=? attempt) with true by (symmetry; apply Z.leb_le; lia).
  split; reflexivity.
Qed.

Lemma exponentialBackoff_plateau_witness :
  exponentialBackoff (2 ^ 63 - 1) (Float64.Fin 3 (-2))
  = exponentialBackoff 5 (Float64.Fin 3 (-2)).
Proof.
  refine (proj2 (exponentialBackoff_plateau (2 ^ 63 - 1)
                   (Float64.Fin 3 (-2)) _)).
  discriminate.
Defined.

(** The delay before jitter, in nanoseconds, for every integer attempt. *)
Lemma cappedBackoff_ns (a : Z) :
  Float64.to_int64 (cappedBackoff a)
  = if 5 <=? a then 30 * Second
    else if 0 <=? a then Second * 2 ^ a
    else Second / 2 ^ (- a).
Proof.
  rewrite cappedBackoff_value. destruct (5 <=? a) eqn:H5; [reflexivity|].
  apply Z.leb_gt in H5. destruct (0 <=? a) eqn:H0.
  - apply Z.leb_le in H0.
    replace (Float64.emin <=? a) with true
      by (symmetry; apply Z.leb_le; unfold Float64.emin; lia).
    assert (Ht : Float64.trunc Second a = Second * 2 ^ a).
    { unfold Float64.trunc. now rewrite (proj2 (Z.leb_le 0 a) H0). }
    assert (2 ^ a <= 2 ^ 4) by (apply Z.pow_le_mono_r; lia).
    change (2 ^ 4) with 16 in *.
    assert (0 < 2 ^ a) by (apply Z.pow_pos_nonneg; lia).
    rewrite to_int64_fits; rewrite Ht; [reflexivity|]. unfold Second. lia.
  - apply Z.leb_gt in H0.
    assert (Hp : 0 < 2 ^ (- a)) by (apply Z.pow_pos_nonneg; lia).
    destruct (Float64.emin <=? a) eqn:Hmin.
    + assert (Ht : Float64.trunc Second a = Second / 2 ^ (- a)).
      { unfold Float64.trunc.
        replace (0 <=? a) with false by (symmetry; apply Z.leb_gt; lia).
        apply Z.quot_div_nonneg; [unfold Second|]; lia. }
      assert (0 <= Second / 2 ^ (- a) <= Second).
      { split; [apply Z.div_pos; unfold Second; lia|].
        apply Z.div_le_upper_bound; [lia|]. unfold Second. nia. }
      rewrite to_int64_fits; rewrite Ht; [reflexivity|].
      unfold Second in *. lia.
    + apply Z.leb_gt in Hmin. unfold Float64.emin in Hmin.
      rewrite to_int64_fits; rewrite trunc_zero;
        [|unfold Second; lia].
      symmetry. apply Z.div_small. split; [unfold Second; lia|].
      assert (2 ^ 30 <= 2 ^ (- a)) by (apply Z.pow_le_mono_r; lia).
      change (2 ^ 30) with 1073741824 in *. unfold Second. lia.
Qed.

(** X3: the delay before jitter never decreases with the attempt, over all
    integers: it is [floor(1s / 2^-attempt)] below zero, [1s * 2^attempt] up
    to attempt 4 and 30 s from attempt 5 on. *)
Theorem cappedBackoff_monotone (a b : Z) :
  a <= b ->
  Float64.to_int64 (cappedBackoff a) <= Float64.to_int64 (cappedBackoff b).
Proof.
  intros Hab. rewrite !cappedBackoff_ns.
  destruct (5 <=? b) eqn:B5.
  - destruct (5 <=? a) eqn:A5; [lia|]. apply Z.leb_gt in A5.
    destruct (0 <=? a) eqn:A0.
    + apply Z.leb_le in A0.
      assert (2 ^ a <= 2 ^ 4) by (apply Z.pow_le_mono_r; lia).
      change (2 ^ 4) with 16 in *. unfold Second. lia.
    + apply Z.leb_gt in A0.
      assert (0 < 2 ^ (- a)) by (apply Z.pow_pos_nonneg; lia).
      assert (Second / 2 ^ (- a) <= Second).
      { apply Z.div_le_upper_bound; [lia|]. unfold Second. nia. }
      unfold Second in *. lia.
  - apply Z.leb_gt in B5.
    replace (5 <=? a) with false by (symmetry; apply Z.leb_gt; lia).
    destruct (0 <=? a) eqn:A0.
    + apply Z.leb_le in A0.
      replace (0 <=? b) with true by (symmetry; apply Z.leb_le; lia).
      assert (2 ^ a <= 2 ^ b) by (apply Z.pow_le_mono_r; lia).
      unfold Second. lia.
    + apply Z.leb_gt in A0.
      assert (Ha : 0 < 2 ^ (- a)) by (apply Z.pow_pos_nonneg; lia).
      assert (Second / 2 ^ (- a) <= Second).
      { apply Z.div_le_upper_bound; [lia|]. unfold Second. nia. }
      destruct (0 <=? b) eqn:B0.
      * apply Z.leb_le in B0.
        assert (0 < 2 ^ b) by (apply Z.pow_pos_nonneg; lia).
        unfold Second in *. nia.
      * apply Z.leb_gt in B0.
        assert (Hb : 0 < 2 ^ (- b)) by (apply Z.pow_pos_nonneg; lia).
        assert (2 ^ (- b) <= 2 ^ (- a)) by (apply Z.pow_le_mono_r; lia).
        apply Z.div_le_compat_l; [unfold Second|]; lia.
Qed.

Lemma cappedBackoff_monotone_witness :
  Float64.to_int64 (cappedBackoff (-3)) <= Float64.to_int64 (cappedBackoff 7).
Proof.
  refine (cappedBackoff_monotone (-3) 7 _). discriminate.
Defined.

(** ** The time a request spends sleeping *)

Lemma sleeps_app (tr1 tr2 : list Action) :
  sleeps (tr1 ++ tr2) = (sleeps tr1 ++ sleeps tr2)%list.
Proof.
  induction tr1 as [|a tr1 IH]; [reflexivity|].
  destruct a; cbn; now rewrite IH.
Qed.

(** In a run of the loop, the [k]-th sleep is the backoff of iteration
    [i + k], as long as the random numbers are in [[0, 1)]. *)
Lemma retryLoop_sleeps {W : Type}
  (Execute : W -> ExecResult * W) (RandFloat64 : W -> Float64.t * W)
  (timeSleep : Z -> W -> W) (incMetric : string -> W -> W)
  (Inv : W -> Prop) :
  (forall w, Inv w -> Inv (snd (Execute w))) ->
  (forall w, Inv w ->
             Float64.unit_interval (fst (RandFloat64 w))
             /\ Inv (snd (RandFloat64 w))) ->
  (forall d w, Inv w -> Inv (timeSleep d w)) ->
  forall n i r0 w,
    Inv w -> 0 <= i ->
    let '(_, tr, _) :=
      retryLoop Execute RandFloat64 timeSleep incMetric n i r0 w in
    (List.length (sleeps tr) <= n)%nat /\
    forall k d, nth_error (sleeps tr) k = Some d ->
                0 <= d <= computedDelay (i + Z.of_nat k).
Proof.
  intros HE Hrand HS. induction n as [|n IH]; intros i r0 w Hw Hi; simpl.
  - split; [lia|]. intros [|k] d; discriminate.
  - pose proof (HE w Hw) as Hw1.
    destruct (Execute w) as [res w1]. cbn [snd] in Hw1.
    destruct (snd res) as [e|].
    + destruct (Hrand w1 Hw1) as [Hf Hw2].
      destruct (RandFloat64 w1) as [f w2]. cbn [fst snd] in Hf, Hw2.
      specialize (IH (i + 1) res (timeSleep (exponentialBackoff i f) w2)
                     (HS _ _ Hw2) ltac:(lia)).
      destruct (retryLoop _ _ _ _ n (i + 1) res _) as [[res' tr] w'].
      destruct IH as [Hlen Hnth]. cbn [sleeps List.length]. split; [lia|].
      intros [|k] d Hd; cbn in Hd.
      * injection Hd as <-. rewrite Z.add_0_r.
        destruct (exponentialBackoff_range i f Hf) as (H0 & Hup & _).
        split; [exact H0 | exact (Hup Hi)].
      * replace (i + Z.of_nat (S k)) with (i + 1 + Z.of_nat k) by lia.
        now apply Hnth.
    + cbn. split; [lia|]. intros [|k] d; discriminate.
Qed.

(** X4: as long as [rand.Float64] returns numbers of [[0, 1)], the sleeps
    of one request are at most 1, 2, 4, 8 and 16 s, in this order, none is
    negative, and together they take at most 31 s: with 5 attempts the cap
    of 30 s is never reached.  [Inv] is what the process keeps true and
    what makes the random numbers valid. *)
Theorem handler_sleeps_bounded {W : Type}
  (Execute : W -> ExecResult * W) (RandFloat64 : W -> Float64.t * W)
  (timeSleep : Z -> W -> W) (incMetric : string -> W -> W)
  (Inv : W -> Prop) (w : W) :
  (forall w', Inv w' -> Inv (snd (Execute w'))) ->
  (forall w', Inv w' ->
              Float64.unit_interval (fst (RandFloat64 w'))
              /\ Inv (snd (RandFloat64 w'))) ->
  (forall d w', Inv w' -> Inv (timeSleep d w')) ->
  Inv w ->
  let '(tr, _) := handler Execute RandFloat64 timeSleep incMetric w in
  Forall (fun d => 0 <= d) (sleeps tr)
  /\ Forall2 Z.le (sleeps tr)
             (firstn (List.length (sleeps tr))
                     [Second; 2 * Second; 4 * Second; 8 * Second;
                      16 * Second])
  /\ totalSleep tr <= 31 * Second.
Proof.
  intros HE Hrand HS Hw. unfold handler, retry.
  pose proof (retryLoop_sleeps Execute RandFloat64 timeSleep incMetric Inv
                HE Hrand HS (Z.to_nat attempts) 0 (None, None) w Hw
                ltac:(lia)) as H.
  destruct (retryLoop _ _ _ _ _ _ _ _) as [[res tr] w'].
  change (Z.to_nat attempts) with 5%nat in H. destruct H as [Hlen Hnth].
  assert (Hgoal :
    Forall (fun d => 0 <= d) (sleeps tr)
    /\ Forall2 Z.le (sleeps tr)
               (firstn (List.length (sleeps tr))
                       [Second; 2 * Second; 4 * Second; 8 * Second;
                        16 * Second])
    /\ totalSleep tr <= 31 * Second).
  { unfold totalSleep. revert Hlen Hnth.
    generalize (sleeps tr) as l. intros l Hlen Hnth.
    assert (B0 : forall d, nth_error l 0 = Some d -> 0 <= d <= Second)
      by (intros d Hd; apply (Hnth 0%nat d Hd)).
    assert (B1 : forall d, nth_error l 1 = Some d -> 0 <= d <= 2 * Second)
      by (intros d Hd; apply (Hnth 1%nat d Hd)).
    assert (B2 : forall d, nth_error l 2 = Some d -> 0 <= d <= 4 * Second)
      by (intros d Hd; apply (Hnth 2%nat d Hd)).
    assert (B3 : forall d, nth_error l 3 = Some d -> 0 <= d <= 8 * Second)
      by (intros d Hd; apply (Hnth 3%nat d Hd)).
    assert (B4 : forall d, nth_error l 4 = Some d -> 0 <= d <= 16 * Second)
      by (intros d Hd; apply (Hnth 4%nat d Hd)).
    clear Hnth.
    destruct l as [|d0 [|d1 [|d2 [|d3 [|d4 [|d5 l]]]]]];
      cbn in Hlen; try lia;
      try specialize (B0 _ eq_refl); try specialize (B1 _ eq_refl);
      try specialize (B2 _ eq_refl); try specialize (B3 _ eq_refl);
      try specialize (B4 _ eq_refl);
      unfold Second in *;
      (split; [repeat (apply Forall_cons; [lia|]); apply Forall_nil|];
       split; [cbn; repeat (apply Forall2_cons; [lia|]); apply Forall2_nil
              | cbn; unfold Second in *; lia]). }
  destruct (snd res); unfold totalSleep; rewrite sleeps_app, app_nil_r;
    exact Hgoal.
Qed.

(** The random numbers of the process are all in [[0, 1)]. *)
Lemma validRandom_kept (w : World) :
  validRandom w ->
  validRandom (snd (cbExecute w))
  /\ validRandom (snd (randFloat64 w))
  /\ forall d, validRandom (sleep d w).
Proof.
  unfold validRandom. intros H. split; [|split].
  - intros k. unfold cbExecute.
    destruct (Execute_frame settings w) as [Hr _]. cbv zeta in Hr.
    rewrite Hr. apply H.
  - exact H.
  - intros d. exact H.
Qed.

Lemma handler_sleeps_bounded_witness :
  let '(tr, _) := serveAPI apiAlwaysDown in
  Forall (fun d => 0 <= d) (sleeps tr)
  /\ Forall2 Z.le (sleeps tr)
             (firstn (List.length (sleeps tr))
                     [Second; 2 * Second; 4 * Second; 8 * Second;
                      16 * Second])
  /\ totalSleep tr <= 31 * Second.
Proof.
  refine (handler_sleeps_bounded cbExecute randFloat64 sleep incMetric
            validRandom apiAlwaysDown _ _ _ _).
  - intros w' H. exact (proj1 (validRandom_kept w' H)).
  - intros w' H. split; [exact (H (draws w'))|].
    exact (proj1 (proj2 (validRandom_kept w' H))).
  - intros d w' H. exact (proj2 (proj2 (validRandom_kept w' H)) d).
  - intros k. split; [split; [discriminate | reflexivity]|].
    split; [discriminate | intros _; reflexivity].
Defined.

(** ** The state-change observer *)

(** X5: over any sequence of transitions, the observer adds to the counter
    labelled with a state's name the number of transitions that enter that
    state, leaves every other label alone, and prints one line per
    transition; the lines already printed stay. *)
Theorem observe_counts_transitions (name : string)
  (ts : list (State * State)) (e : Env) (l : string) :
  requestCount (observe name ts e) l
  = (requestCount e l + entering l ts)%nat
  /\ List.length (stdout (observe name ts e))
     = (List.length (stdout e) + List.length ts)%nat
  /\ firstn (List.length (stdout e)) (stdout (observe name ts e))
     = stdout e.
Proof.
  revert e. induction ts as [|[from to] ts IH]; intros e.
  - cbn. rewrite firstn_all. repeat split; lia.
  - change (observe name ((from, to) :: ts) e)
      with (observe name ts (OnStateChange name from to e)).
    destruct (IH (OnStateChange name from to e)) as (Hc & Hl & Hf).
    rewrite Hc, Hl. unfold entering. cbn [filter snd].
    unfold OnStateChange, incRequestCount, Printf, Inc in *.
    cbn [requestCount stdout] in *. rewrite length_app in *.
    cbn [List.length] in *.
    split; [|split].
    + destruct (String.eqb (State_String to) l); cbn [List.length]; lia.
    + lia.
    + set (n := List.length (stdout e)) in *.
      set (X := stdout (observe name ts _)) in *.
      replace (firstn n X) with (firstn n (firstn (n + 1) X))
        by (rewrite firstn_firstn; f_equal; lia).
      rewrite Hf, firstn_app. subst n.
      rewrite Nat.sub_diag, firstn_all. cbn. apply app_nil_r.
Qed.

(** ** Requests served by the process *)

(** X6: [defaultCallExternalAPI] reports a failure only when [http.Get]
    fails: whatever status code the server answers, 500 included, a Closed
    breaker takes the call as a success and the handler answers
    [Request succeeded: <code>] after one attempt, without sleep or retry;
    the failure streak of the breaker is back to zero. *)
Theorem any_status_code_is_a_success (w : World) (code : Z) :
  state (cb w) = StateClosed ->
  statusCode (api w (apiCalls w)) = Some code ->
  let '(tr, w') := serveAPI w in
  tr = [CallExecute 0 (Some code, None); IncRequestCount "success";
        ResponseWrite ("Request succeeded: " ++ Sprint (Some code))]
  /\ apiCalls w' = S (apiCalls w)
  /\ draws w' = draws w
  /\ state (cb w') = StateClosed
  /\ ConsecutiveFailures (counts (cb w')) = 0
  /\ requestCount (env w') "success" = S (requestCount (env w) "success")
  /\ requestCount (env w') "failure" = requestCount (env w) "failure".
Proof.
  intros Hs Ha. unfold serveAPI, handler, retry.
  change (Z.to_nat attempts) with 5%nat.
  destruct (closed_success_step w code Hs Ha) as (HE & Hst & Hc).
  rewrite (retryLoop_success cbExecute randFloat64 sleep incMetric _ _ _ w
             _ _ HE eq_refl).
  cbn [snd fst app]. split; [reflexivity|].
  cbn [incMetric setBreaker apiCalls draws cb env requestCount
       incRequestCount].
  rewrite Hc, Hst. clear HE Hst Hc.
  rewrite (cbExecute_closed w Hs). cbv zeta. rewrite Ha.
  destruct (Interval settings <=? _);
    cbn [snd draws cb env requestCount counts withCounts onSuccess
         ConsecutiveFailures zeroCounts];
    repeat split.
Qed.

Lemma any_status_code_is_a_success_witness :
  let '(tr, w') :=
    serveAPI (start (fun _ => mkReply 0 (Some 500))
                    (fun _ => Float64.Fin 1 (-1))) in
  tr = [CallExecute 0 (Some 500, None); IncRequestCount "success";
        ResponseWrite ("Request succeeded: " ++ Sprint (Some 500))]
  /\ apiCalls w' = 1%nat
  /\ draws w' = 0%nat
  /\ state (cb w') = StateClosed
  /\ ConsecutiveFailures (counts (cb w')) = 0
  /\ requestCount (env w') "success" = 1%nat
  /\ requestCount (env w') "failure" = 0%nat.
Proof.
  refine (any_status_code_is_a_success
            (start (fun _ => mkReply 0 (Some 500))
                   (fun _ => Float64.Fin 1 (-1))) 500 _ _);
    reflexivity.
Defined.

(** The lateness of the wake-ups, one sleep later. *)
Lemma overshoots_shift (w v : World) (n : nat) :
  overshoot v = overshoot w -> naps v = S (naps w) ->
  overshoots w (S n) = Z.max 0 (overshoot w (naps w)) + overshoots v n.
Proof.
  intros Ho Hn. induction n as [|n IH].
  - cbn [overshoots]. rewrite Nat.add_0_r. lia.
  - cbn [overshoots] in *. rewrite IH, Ho, Hn.
    replace (S (naps w) + n)%nat with (naps w + S n)%nat by lia. lia.
Qed.

Lemma overshoots_nonneg (w : World) (n : nat) : 0 <= overshoots w n.
Proof.
  induction n as [|n IH]; cbn [overshoots]; lia.
Qed.

(** The loop on an Open breaker whose timeout outlasts the sleeps before
    the last attempt, late wake-ups included: every attempt is rejected. *)
Lemma open_loop (n : nat) : forall (i : Z) (r0 : ExecResult) (w : World),
  state (cb w) = StateOpen -> validRandom w ->
  0 <= i -> i + Z.of_nat n <= 5 ->
  ((0 < n)%nat ->
   now w + Second * (2 ^ (i + Z.of_nat n - 1) - 2 ^ i)
   + overshoots w (n - 1) < expiry (cb w)) ->
  let '(res, tr, w') :=
    retryLoop cbExecute randFloat64 sleep incMetric n i r0 w in
  cb w' = cb w /\ env w' = env w /\ apiCalls w' = apiCalls w
  /\ forallb isRejection tr = true
  /\ count isCallExecute tr = n
  /\ res = match n with O => r0 | S _ => (None, Some ErrOpenState) end
  /\ now w' = now w + totalSleep tr + overshoots w n.
Proof.
  induction n as [|n IH]; intros i r0 w Hs Hr Hi Hn Ht.
  - cbn [retryLoop]. do 6 (split; [reflexivity|]). cbn. lia.
  - assert (Hp : 0 < 2 ^ i) by (apply Z.pow_pos_nonneg; lia).
    assert (Hmono : 2 ^ i <= 2 ^ (i + Z.of_nat (S n) - 1))
      by (apply Z.pow_le_mono_r; lia).
    specialize (Ht ltac:(lia)).
    pose proof (overshoots_nonneg w (S n - 1)) as Hov.
    assert (HE : cbExecute w = ((None, Some ErrOpenState), w)).
    { apply cbExecute_open; [exact Hs|]. unfold Second in *. nia. }
    rewrite (retryLoop_failure cbExecute randFloat64 sleep incMetric n i r0
               w _ ErrOpenState w (rnd w (draws w)) (snd (randFloat64 w))
               HE eq_refl eq_refl).
    cbv zeta.
    set (d := exponentialBackoff i (rnd w (draws w))).
    destruct (exponentialBackoff_range i _ (Hr (draws w))) as (D0 & Dup & _).
    specialize (Dup Hi). fold d in D0, Dup.
    rewrite computedDelay_value in Dup by exact Hi.
    replace (5 <=? i) with false in Dup by (symmetry; apply Z.leb_gt; lia).
    set (v := sleep d (snd (randFloat64 w))).
    assert (Hv : now v = now w + d + Z.max 0 (overshoot w (naps w)))
      by (unfold v; cbn [sleep randFloat64 snd now naps overshoot]; lia).
    assert (Hshift : forall k, overshoots w (S k)
                     = Z.max 0 (overshoot w (naps w)) + overshoots v k)
      by (intros k; apply overshoots_shift; reflexivity).
    assert (P1 : 2 ^ (i + 1) = 2 * 2 ^ i)
      by (rewrite Z.pow_add_r by lia; lia).
    assert (P2 : i + 1 + Z.of_nat n = i + Z.of_nat (S n)) by lia.
    assert (P3 : i + 1 + Z.of_nat n - 1 = i + Z.of_nat (S n) - 1) by lia.
    specialize (IH (i + 1) (None, Some ErrOpenState) v Hs Hr ltac:(lia)
                   ltac:(lia)).
    assert (Hpre : (0 < n)%nat ->
                   now v + Second * (2 ^ (i + 1 + Z.of_nat n - 1) - 2 ^ (i + 1))
                   + overshoots v (n - 1)
                   < expiry (cb v)).
    { intros Hn0. rewrite P1, P3, Hv. change (cb v) with (cb w).
      replace (S n - 1)%nat with (S (n - 1)) in Ht by lia.
      rewrite Hshift in Ht.
      unfold Second in *. lia. }
    specialize (IH Hpre).
    destruct (retryLoop cbExecute randFloat64 sleep incMetric n (i + 1) _ v)
      as [[res' tr] w'].
    destruct IH as (I1 & I2 & I3 & I4 & I5 & I6 & I7).
    change (cb v) with (cb w) in I1. change (env v) with (env w) in I2.
    change (apiCalls v) with (apiCalls w) in I3.
    split; [exact I1|]. split; [exact I2|]. split; [exact I3|].
    split; [cbn; exact I4|].
    split; [unfold count in *; cbn; lia|].
    split; [rewrite I6; now destruct n|].
    rewrite I7, Hv, Hshift. unfold totalSleep. cbn [sleeps fold_right]. lia.
Qed.

(** X7: a request that arrives while the breaker is Open and its expiry
    is further away than 15 s and the lateness of the first four wake-ups
    is rejected five times in a row: the downstream API is never called,
    the breaker is left as it was, the answer is 503 and [failure] is
    counted once; the request lasts as long as its five sleeps at least. *)
Theorem open_circuit_rejects_whole_request (w : World) :
  state (cb w) = StateOpen ->
  validRandom w ->
  now w + 15 * Second + overshoots w 4 < expiry (cb w) ->
  let '(tr, w') := serveAPI w in
  (exists pre,
      tr = (pre ++ [IncRequestCount "failure";
                    HttpError "Service Unavailable" 503])%list
      /\ forallb isRejection pre = true
      /\ count isCallExecute pre = 5%nat
      /\ now w + totalSleep pre <= now w')
  /\ apiCalls w' = apiCalls w
  /\ cb w' = cb w
  /\ requestCount (env w') "failure" = S (requestCount (env w) "failure").
Proof.
  intros Hs Hr Ht. unfold serveAPI, handler, retry.
  change (Z.to_nat attempts) with 5%nat.
  pose proof (open_loop 5 0 (None, None) w Hs Hr ltac:(lia) ltac:(lia)) as H.
  change (2 ^ (0 + Z.of_nat 5 - 1) - 2 ^ 0) with 15 in H.
  change (5 - 1)%nat with 4%nat in H.
  specialize (H ltac:(intros _; lia)).
  pose proof (overshoots_nonneg w 5) as Hov.
  destruct (retryLoop cbExecute randFloat64 sleep incMetric 5 0 _ w)
    as [[res tr] w'].
  destruct H as (I1 & I2 & I3 & I4 & I5 & -> & I7).
  cbn [snd]. split.
  { exists tr. repeat split; auto. cbn [incMetric setBreaker now]. lia. }
  cbn [incMetric setBreaker apiCalls cb env now requestCount
       incRequestCount].
  rewrite I1, I2, I3. repeat split; lia.
Qed.

Lemma open_circuit_rejects_whole_request_witness :
  let '(tr, w') := serveAPI (snd (serveAPI lateOutage)) in
  (exists pre,
      tr = (pre ++ [IncRequestCount "failure";
                    HttpError "Service Unavailable" 503])%list
      /\ forallb isRejection pre = true
      /\ count isCallExecute pre = 5%nat
      /\ now (snd (serveAPI lateOutage)) + totalSleep pre <= now w')
  /\ apiCalls w' = apiCalls (snd (serveAPI lateOutage))
  /\ cb w' = cb (snd (serveAPI lateOutage))
  /\ requestCount (env w') "failure"
     = S (requestCount (env (snd (serveAPI lateOutage))) "failure").
Proof.
  refine (open_circuit_rejects_whole_request (snd (serveAPI lateOutage))
            _ _ _).
  - vm_compute. reflexivity.
  - intros k. vm_compute. split; [split; [discriminate | reflexivity]|].
    split; [discriminate | intros _; reflexivity].
  - vm_compute. reflexivity.
Defined.

(** An iteration whose failure trips the breaker, and the iterations
    after it. *)
Lemma tripping_iteration (n : nat) (i : Z) (r0 : ExecResult)
  (w : World) :
  state (cb w) = StateClosed ->
  3 <= ConsecutiveFailures (counts (cb w)) ->
  statusCode (api w (apiCalls w)) = None ->
  validRandom w ->
  0 <= i -> i + Z.of_nat n < 5 ->
  now w + Z.max 0 (latency (api w (apiCalls w))) - windowStart (cb w)
  < Interval settings ->
  Second * (2 ^ (i + Z.of_nat n) - 2 ^ i) + overshoots w n
  < Timeout settings ->
  let '(res, tr, w') :=
    retryLoop cbExecute randFloat64 sleep incMetric (S n) i r0 w in
  apiCalls w' = S (apiCalls w)
  /\ state (cb w') = StateOpen
  /\ failed res = true
  /\ exists d pre,
      tr = CallExecute i opFailure :: TimeSleep d :: pre
      /\ forallb isRejection pre = true
      /\ count isCallExecute pre = n.
Proof.
  intros Hs Hc Ha Hr Hi Hn Hwin Hto.
  rewrite (serve_failed_iteration n i r0 w Hs Ha). cbv zeta.
  destruct (closed_call_frame w Hs) as (_ & _ & _ & _ & _ & N1 & O1 & T1).
  destruct (closed_failure_trip w Hs Ha Hc)
    as (S1 & X1 & C1 & _ & R1 & _ & _).
  { rewrite T1. exact Hwin. }
  set (w1 := snd (cbExecute w)) in *.
  assert (Hr1 : validRandom w1) by (intros k; rewrite R1; apply Hr).
  destruct (exponentialBackoff_range i _ (Hr1 (draws w1))) as (D0 & Dup & _).
  specialize (Dup Hi). rewrite computedDelay_value in Dup by exact Hi.
  replace (5 <=? i) with false in Dup by (symmetry; apply Z.leb_gt; lia).
  set (v := backedOff i w1).
  assert (Hv : now v = now w1 + exponentialBackoff i (rnd w1 (draws w1))
                       + Z.max 0 (overshoot w (naps w))).
  { unfold v, backedOff. cbn [sleep randFloat64 snd now naps overshoot].
    rewrite N1, O1. lia. }
  assert (Hshift : forall k, overshoots w (S k)
                   = Z.max 0 (overshoot w (naps w)) + overshoots v k).
  { intros k. apply overshoots_shift.
    - unfold v, backedOff. cbn [sleep randFloat64 snd overshoot]. exact O1.
    - unfold v, backedOff. cbn [sleep randFloat64 snd naps]. now rewrite N1. }
  assert (Hp : 0 < 2 ^ i) by (apply Z.pow_pos_nonneg; lia).
  assert (P1 : 2 ^ (i + 1) = 2 * 2 ^ i)
    by (rewrite Z.pow_add_r by lia; lia).
  pose proof (open_loop n (i + 1) opFailure v S1 Hr1 ltac:(lia) ltac:(lia))
    as H.
  assert (Hpre : (0 < n)%nat ->
                 now v + Second * (2 ^ (i + 1 + Z.of_nat n - 1) - 2 ^ (i + 1))
                 + overshoots v (n - 1)
                 < expiry (cb v)).
  { intros Hn0. change (cb v) with (cb w1). rewrite X1, Hv, P1.
    replace (i + 1 + Z.of_nat n - 1) with (i + Z.of_nat n) by lia.
    replace n with (S (n - 1)) in Hto at 2 by lia.
    rewrite Hshift in Hto.
    unfold Second in *. lia. }
  specialize (H Hpre).
  destruct (retryLoop cbExecute randFloat64 sleep incMetric n (i + 1) _ v)
    as [[res tr] w'].
  destruct H as (I1 & _ & I3 & I4 & I5 & -> & _).
  change (cb v) with (cb w1) in I1. change (apiCalls v) with (apiCalls w1) in I3.
  rewrite I1, I3. split; [exact C1|]. split; [exact S1|].
  split; [now destruct n|]. eauto.
Qed.

(** X8: the failure that trips the breaker, counted in the rolling
    interval of the three before it, is the last call of the request that
    reaches the downstream API: as long as the sleeps that remain, late
    wake-ups included, take less than the 30 s of the open timeout, every
    later attempt of the loop is rejected and the loop ends in failure with
    the breaker Open. *)
Theorem trip_ends_the_retries (n : nat) (i : Z) (r0 : ExecResult)
  (w : World) :
  state (cb w) = StateClosed ->
  3 <= ConsecutiveFailures (counts (cb w)) ->
  statusCode (api w (apiCalls w)) = None ->
  validRandom w ->
  0 <= i -> i + Z.of_nat n < 5 ->
  now w + Z.max 0 (latency (api w (apiCalls w))) - windowStart (cb w)
  < Interval settings ->
  Second * (2 ^ (i + Z.of_nat n) - 2 ^ i) + overshoots w n
  < Timeout settings ->
  let '(res, tr, w') :=
    retryLoop cbExecute randFloat64 sleep incMetric (S n) i r0 w in
  apiCalls w' = S (apiCalls w)
  /\ state (cb w') = StateOpen
  /\ failed res = true
  /\ exists d pre,
      tr = CallExecute i opFailure :: TimeSleep d :: pre
      /\ forallb isRejection pre = true
      /\ count isCallExecute pre = n.
Proof.
  apply tripping_iteration.
Qed.

Lemma trip_ends_the_retries_witness :
  let '(res, tr, w') :=
    retryLoop cbExecute randFloat64 sleep incMetric 5 0 (None, None)
              (executeN settings 3 lateOutage) in
  apiCalls w' = S (apiCalls (executeN settings 3 lateOutage))
  /\ state (cb w') = StateOpen
  /\ failed res = true
  /\ exists d pre,
      tr = CallExecute 0 opFailure :: TimeSleep d :: pre
      /\ forallb isRejection pre = true
      /\ count isCallExecute pre = 4%nat.
Proof.
  refine (trip_ends_the_retries 4 0 (None, None)
            (executeN settings 3 lateOutage) _ _ _ _ _ _ _ _).
  - vm_compute. reflexivity.
  - vm_compute. discriminate.
  - vm_compute. reflexivity.
  - intros k. vm_compute. split; [split; [discriminate | reflexivity]|].
    split; [discriminate | intros _; reflexivity].
  - discriminate.
  - reflexivity.
  - vm_compute. reflexivity.
  - vm_compute. reflexivity.
Defined.

(** ** Sequences of calls through the breaker *)

Lemma executeN_S (st : Settings) (n : nat) (w : World) :
  executeN st (S n) w = snd (Execute st request (executeN st n w)).
Proof. reflexivity. Qed.

Lemma closed_success_failures (w : World) (code : Z) :
  state (cb w) = StateClosed ->
  statusCode (api w (apiCalls w)) = Some code ->
  ConsecutiveFailures (counts (cb (snd (cbExecute w)))) = 0.
Proof.
  intros Hs Ha. rewrite (cbExecute_closed w Hs). cbv zeta. rewrite Ha.
  destruct (Interval settings <=? _); reflexivity.
Qed.

(** What [n] calls on a Closed breaker keep true while the answers have no
    four failures in a row. *)
Lemma closed_run_invariant (w : World) (n : nat) :
  state (cb w) = StateClosed ->
  ConsecutiveFailures (counts (cb w)) = 0 ->
  (forall m, (m <= n)%nat -> (failStreak (api w) (apiCalls w) m <= 3)%nat) ->
  forall m, (m <= n)%nat ->
    let wm := executeN settings m w in
    state (cb wm) = StateClosed
    /\ apiCalls wm = (apiCalls w + m)%nat
    /\ api wm = api w
    /\ ConsecutiveFailures (counts (cb wm))
       <= Z.of_nat (failStreak (api w) (apiCalls w) m).
Proof.
  intros Hs Hc Hstreak. induction m as [|m IH]; intros Hm.
  - cbn. rewrite Nat.add_0_r, Hc. repeat split; auto; lia.
  - destruct (IH ltac:(lia)) as (S0 & C0 & A0 & F0). cbv zeta.
    rewrite executeN_S. fold cbExecute.
    set (wm := executeN settings m w) in *.
    pose proof (Hstreak (S m) Hm) as H3. cbn [failStreak] in *.
    destruct (statusCode (api w (apiCalls w + m)%nat)) as [code|] eqn:Hrep.
    + assert (Ha : statusCode (api wm (apiCalls wm)) = Some code)
        by (rewrite A0, C0; exact Hrep).
      destruct (closed_success_step wm code S0 Ha) as (_ & S1 & C1).
      rewrite (closed_success_failures wm code S0 Ha).
      destruct (Execute_frame settings wm) as (_ & A1 & _).
      fold cbExecute in A1. cbv zeta in A1.
      rewrite S1, C1, A1, A0, C0. repeat split; lia.
    + assert (Ha : statusCode (api wm (apiCalls wm)) = None)
        by (rewrite A0, C0; exact Hrep).
      destruct (closed_failure_step wm S0 Ha ltac:(lia))
        as (S1 & C1 & A1 & _ & _ & _ & O1 & _).
      rewrite S1, C1, A1, A0, C0. repeat split; lia.
Qed.

(** X9: a Closed breaker stays Closed, and lets every call through to the
    downstream API, as long as the answers never show four failures in a
    row: failures that successes interrupt never trip it, however many
    they are and however long the calls take. *)
Theorem no_trip_without_four_failures_in_a_row (w : World) (n : nat) :
  state (cb w) = StateClosed ->
  ConsecutiveFailures (counts (cb w)) = 0 ->
  (forall m, (m <= n)%nat -> (failStreak (api w) (apiCalls w) m <= 3)%nat) ->
  state (cb (executeN settings n w)) = StateClosed
  /\ apiCalls (executeN settings n w) = (apiCalls w + n)%nat.
Proof.
  intros Hs Hc Hstreak.
  destruct (closed_run_invariant w n Hs Hc Hstreak n (le_n n))
    as (H1 & H2 & _).
  split; assumption.
Qed.

Lemma no_trip_without_four_failures_in_a_row_witness :
  state (cb (executeN settings 12
               (start (fun k => if (k mod 4 =? 3)%nat then apiUp
                                else apiDown)
                      (fun _ => Float64.Fin 1 (-1)))))
  = StateClosed.
Proof.
  refine (proj1 (no_trip_without_four_failures_in_a_row
                   (start (fun k => if (k mod 4 =? 3)%nat then apiUp
                                    else apiDown)
                          (fun _ => Float64.Fin 1 (-1))) 12 _ _ _)).
  - reflexivity.
  - reflexivity.
  - intros m Hm.
    do 13 (destruct m as [|m]; [vm_compute; repeat constructor|]).
    exfalso. lia.
Defined.

(** The first call after the open timeout, answered by the server: a probe
    that succeeds. *)
Lemma expired_open_probe (st : Settings) (w : World) (code : Z) :
  state (cb w) = StateOpen -> expiry (cb w) <= now w ->
  1 < MaxRequests st ->
  statusCode (api w (apiCalls w)) = Some code ->
  let w' := snd (Execute st request w) in
  fst (Execute st request w) = (Some code, None)
  /\ state (cb w') = StateHalfOpen
  /\ Requests (counts (cb w')) = 1
  /\ ConsecutiveSuccesses (counts (cb w')) = 1
  /\ apiCalls w' = S (apiCalls w) /\ api w' = api w.
Proof.
  destruct w as [t0 e b calls dr np a r ov]. destruct b as [s g x c ws].
  simpl. intros -> Hx HN Ha.
  unfold Execute, beforeRequest. simpl.
  replace (x <=? t0) with true by (symmetry; apply Z.leb_le; lia).
  unfold request, callExternalAPI. simpl. rewrite Ha. simpl.
  unfold afterRequest. simpl. rewrite Z.eqb_refl. simpl.
  replace (MaxRequests st <=? 1) with false
    by (symmetry; apply Z.leb_gt; lia).
  simpl. repeat split.
Qed.

(** A probe that succeeds in Half-Open. *)
Lemma half_open_probe (st : Settings) (w : World) (code : Z) :
  state (cb w) = StateHalfOpen ->
  Requests (counts (cb w)) < MaxRequests st ->
  statusCode (api w (apiCalls w)) = Some code ->
  let w' := snd (Execute st request w) in
  fst (Execute st request w) = (Some code, None)
  /\ apiCalls w' = S (apiCalls w) /\ api w' = api w
  /\ (if MaxRequests st <=? ConsecutiveSuccesses (counts (cb w)) + 1
      then state (cb w') = StateClosed /\ counts (cb w') = zeroCounts
      else state (cb w') = StateHalfOpen
           /\ Requests (counts (cb w')) = Requests (counts (cb w)) + 1
           /\ ConsecutiveSuccesses (counts (cb w'))
              = ConsecutiveSuccesses (counts (cb w)) + 1).
Proof.
  destruct w as [t0 e b calls dr np a r ov]. destruct b as [s g x c ws].
  simpl. intros -> HN Ha.
  unfold Execute, beforeRequest. simpl.
  replace (Requests c <? MaxRequests st) with true
    by (symmetry; apply Z.ltb_lt; lia).
  rewrite orb_true_r.
  unfold request, callExternalAPI. simpl. rewrite Ha. simpl.
  unfold afterRequest. simpl. rewrite Z.eqb_refl. simpl.
  destruct (MaxRequests st <=? ConsecutiveSuccesses c + 1); simpl;
    repeat split.
Qed.

(** A call that succeeds on a Closed breaker, for all settings. *)
Lemma closed_success_any (st : Settings) (w : World) (code : Z) :
  state (cb w) = StateClosed ->
  statusCode (api w (apiCalls w)) = Some code ->
  let w' := snd (Execute st request w) in
  state (cb w') = StateClosed /\ apiCalls w' = S (apiCalls w).
Proof.
  destruct w as [t0 e b calls dr np a r ov].
  cbn [cb api apiCalls]. intros Hs Ha.
  unfold Execute, beforeRequest. cbn [cb now env]. rewrite Hs.
  pose proof (rollWindow_state st t0 b) as Hs0. rewrite Hs in Hs0.
  set (b0 := rollWindow st t0 b) in *. cbv zeta.
  unfold request, callExternalAPI, setBreaker.
  cbn [now env cb apiCalls draws naps api rnd overshoot]. rewrite Ha.
  cbn [snd fst now env cb apiCalls draws naps api rnd overshoot].
  unfold afterRequest.
  match goal with |- context [rollWindow st ?t ?b1] =>
    pose proof (rollWindow_state st t b1) as Hs2;
    set (b2 := rollWindow st t b1) in * end.
  cbn [state withCounts] in Hs2. rewrite Hs0 in Hs2. cbv zeta.
  destruct (negb _); [cbn; now split|].
  rewrite Hs2. cbn. now split.
Qed.

(** While the probes succeed the breaker is Half-Open and has counted
    them. *)
Lemma probing_invariant (st : Settings) (w : World) (N : nat) :
  MaxRequests st = Z.of_nat N ->
  state (cb w) = StateOpen -> expiry (cb w) <= now w ->
  (forall k, (k <= N)%nat ->
             statusCode (api w (apiCalls w + k)%nat) <> None) ->
  forall k, (1 <= k < N)%nat ->
    let wk := executeN st k w in
    state (cb wk) = StateHalfOpen
    /\ Requests (counts (cb wk)) = Z.of_nat k
    /\ ConsecutiveSuccesses (counts (cb wk)) = Z.of_nat k
    /\ apiCalls wk = (apiCalls w + k)%nat /\ api wk = api w.
Proof.
  intros HN Hs Hx Hok. induction k as [|k IH]; intros Hk; [lia|].
  cbv zeta. rewrite executeN_S.
  destruct (Nat.eq_dec k 0) as [->|Hk0].
  - cbn [executeN].
    destruct (statusCode (api w (apiCalls w))) as [code|] eqn:Ha.
    2:{ exfalso. apply (Hok 0%nat ltac:(lia)).
        now rewrite Nat.add_0_r. }
    destruct (expired_open_probe st w code Hs Hx ltac:(lia) Ha)
      as (_ & H1 & H2 & H3 & H4 & H5).
    rewrite H1, H2, H3, H4, H5. repeat split; lia.
  - destruct (IH ltac:(lia)) as (S0 & R0 & C0 & A0 & P0).
    set (wk := executeN st k w) in *.
    destruct (statusCode (api wk (apiCalls wk))) as [code|] eqn:Ha.
    2:{ exfalso. apply (Hok k ltac:(lia)). now rewrite <- P0, <- A0. }
    destruct (half_open_probe st wk code S0 ltac:(lia) Ha)
      as (_ & H1 & H2 & H3).
    replace (MaxRequests st <=? ConsecutiveSuccesses (counts (cb wk)) + 1)
      with false in H3 by (symmetry; apply Z.leb_gt; lia).
    destruct H3 as (H3 & H4 & H5).
    rewrite H1, H2, H3, H4, H5, R0, C0, A0, P0. repeat split; lia.
Qed.

(** X10: the recovery that [TestCircuitBreakerV3] checks, for any
    [MaxRequests] above one: once the open timeout has elapsed, the next
    call is let through and, if it succeeds, leaves the breaker Half-Open;
    the breaker stays Half-Open until [MaxRequests] calls in a row have
    succeeded, is Closed from then on, and one more successful call finds
    it Closed and keeps it so.  All these calls reach the downstream
    API. *)
Theorem recovery_after_open_timeout (st : Settings) (w : World) (N : nat) :
  MaxRequests st = Z.of_nat N -> (1 < N)%nat ->
  state (cb w) = StateOpen -> expiry (cb w) <= now w ->
  (forall k, (k <= N)%nat ->
             statusCode (api w (apiCalls w + k)%nat) <> None) ->
  (forall k, (1 <= k < N)%nat ->
             state (cb (executeN st k w)) = StateHalfOpen)
  /\ state (cb (executeN st N w)) = StateClosed
  /\ state (cb (executeN st (S N) w)) = StateClosed
  /\ apiCalls (executeN st (S N) w) = (apiCalls w + S N)%nat.
Proof.
  intros HN H1 Hs Hx Hok.
  pose proof (probing_invariant st w N HN Hs Hx Hok) as Hinv.
  split; [intros k Hk; apply (Hinv k Hk)|].
  destruct N as [|N]; [lia|].
  destruct (Hinv N ltac:(lia)) as (S0 & R0 & C0 & A0 & P0).
  rewrite (executeN_S st (S N)), (executeN_S st N).
  set (wk := executeN st N w) in *.
  destruct (statusCode (api wk (apiCalls wk))) as [code|] eqn:Ha.
  2:{ exfalso. apply (Hok N ltac:(lia)). now rewrite <- P0, <- A0. }
  destruct (half_open_probe st wk code S0 ltac:(lia) Ha)
    as (_ & H2 & H3 & H4).
  replace (MaxRequests st <=? ConsecutiveSuccesses (counts (cb wk)) + 1)
    with true in H4 by (symmetry; apply Z.leb_le; lia).
  destruct H4 as (H4 & _).
  set (wN := snd (Execute st request wk)) in *.
  split; [exact H4|].
  destruct (statusCode (api wN (apiCalls wN))) as [code'|] eqn:Ha'.
  2:{ exfalso. apply (Hok (S N) ltac:(lia)).
      rewrite <- P0, <- H3, Nat.add_succ_r, <- A0, <- H2. exact Ha'. }
  destruct (closed_success_any st wN code' H4 Ha') as (H5 & H6).
  split; [exact H5|]. rewrite H6, H2, A0. lia.
Qed.

Lemma recovery_after_open_timeout_witness :
  state (cb (executeN testSettings 1 testOutage)) = StateHalfOpen
  /\ state (cb (executeN testSettings 5 testOutage)) = StateClosed
  /\ state (cb (executeN testSettings 6 testOutage)) = StateClosed.
Proof.
  assert (H : forall k, (k <= 5)%nat ->
              statusCode (api testOutage (apiCalls testOutage + k)%nat)
              <> None).
  { intros k _.
    change (statusCode (if (4 + k <? 4)%nat then apiDown else apiUp)
            <> None).
    replace (4 + k <? 4)%nat with false
      by (symmetry; apply Nat.ltb_ge; lia).
    discriminate. }
  pose proof (recovery_after_open_timeout testSettings testOutage 5
                eq_refl ltac:(lia) eq_refl ltac:(vm_compute; discriminate)
                H) as (H1 & H5 & H6 & _).
  split; [apply H1; lia|]. split; assumption.
Defined.

(** An iteration whose operation fails without tripping the breaker, up to
    the next attempt. *)
Lemma failed_iteration_within (i : Z) (w : World) :
  state (cb w) = StateClosed ->
  statusCode (api w (apiCalls w)) = None ->
  ConsecutiveFailures (counts (cb w)) < 3 ->
  validRandom w -> 0 <= i <= 4 ->
  let w1 := snd (cbExecute w) in
  let v := backedOff i w1 in
  now w1 = now w + Z.max 0 (latency (api w (apiCalls w)))
  /\ now w1 <= now v
     <= now w1 + Second * 2 ^ i + Z.max 0 (overshoot w (naps w))
  /\ state (cb v) = StateClosed
  /\ apiCalls v = S (apiCalls w) /\ api v = api w
  /\ validRandom v
  /\ naps v = S (naps w) /\ overshoot v = overshoot w
  /\ (now w1 - windowStart (cb w) < Interval settings ->
      ConsecutiveFailures (counts (cb v))
      = ConsecutiveFailures (counts (cb w)) + 1
      /\ windowStart (cb v) = windowStart (cb w)).
Proof.
  intros Hs Ha Hc Hr Hi. cbv zeta.
  destruct (closed_failure_step w Hs Ha Hc)
    as (S1 & C1 & A1 & R1 & _ & _ & _ & W1).
  destruct (closed_call_frame w Hs) as (_ & _ & _ & _ & _ & P1 & O1 & N1).
  set (w1 := snd (cbExecute w)) in *.
  assert (Hr1 : validRandom w1) by (intros k; rewrite R1; apply Hr).
  destruct (exponentialBackoff_range i _ (Hr1 (draws w1))) as (D0 & Dup & _).
  specialize (Dup ltac:(lia)).
  rewrite computedDelay_value in Dup by lia.
  replace (5 <=? i) with false in Dup by (symmetry; apply Z.leb_gt; lia).
  split; [exact N1|].
  split.
  { unfold backedOff. cbn [sleep randFloat64 snd now naps overshoot].
    rewrite P1, O1. lia. }
  split; [exact S1|]. split; [exact C1|]. split; [exact A1|].
  split; [exact Hr1|].
  split; [unfold backedOff; cbn [sleep randFloat64 snd naps]; now rewrite P1|].
  split; [exact O1|]. exact W1.
Qed.

(** X11: the first request of an outage.  On a Closed breaker without a
    failure streak, when the downstream API fails four times and the fourth
    failure still falls in the rolling interval (the four calls, 7 s of
    backoff at most and three late wake-ups after its start), one request
    calls it four times and trips the breaker with the fourth failure;
    when the sleep that follows, late wake-up included, is shorter than the
    open timeout, its fifth attempt is rejected and it answers 503: a
    single request is enough to open the circuit. *)
Theorem first_request_of_an_outage (w : World) :
  state (cb w) = StateClosed ->
  ConsecutiveFailures (counts (cb w)) = 0 ->
  validRandom w ->
  (forall k, (k < 4)%nat -> statusCode (api w (apiCalls w + k)%nat) = None) ->
  now w + latencies (api w) (apiCalls w) 4 + 7 * Second + overshoots w 3
  - windowStart (cb w) < Interval settings ->
  8 * Second + Z.max 0 (overshoot w (naps w + 3)%nat) < Timeout settings ->
  let '(tr, w') := serveAPI w in
  apiCalls w' = (apiCalls w + 4)%nat
  /\ state (cb w') = StateOpen
  /\ exists d0 d1 d2 d3 d4,
      tr = [CallExecute 0 opFailure; TimeSleep d0;
            CallExecute 1 opFailure; TimeSleep d1;
            CallExecute 2 opFailure; TimeSleep d2;
            CallExecute 3 opFailure; TimeSleep d3;
            CallExecute 4 (None, Some ErrOpenState); TimeSleep d4;
            IncRequestCount "failure";
            HttpError "Service Unavailable" 503].
Proof.
  intros Hs Hc Hr Hapi Hwin Hto.
  cbn [latencies overshoots] in Hwin.
  rewrite !Nat.add_0_r in Hwin.
  replace (naps w + 1)%nat with (S (naps w)) in Hwin by lia.
  replace (naps w + 2)%nat with (S (S (naps w))) in Hwin by lia.
  replace (naps w + 3)%nat with (S (S (S (naps w)))) in Hto by lia.
  assert (A0 : statusCode (api w (apiCalls w)) = None)
    by (rewrite <- (Nat.add_0_r (apiCalls w)); apply Hapi; lia).
  unfold serveAPI, handler, retry. change (Z.to_nat attempts) with 5%nat.
  (* attempt 0 *)
  rewrite (serve_failed_iteration _ _ _ w Hs A0). cbv zeta.
  destruct (failed_iteration_within 0 w Hs A0 ltac:(lia) Hr ltac:(lia))
    as (N1 & T1 & S1 & C1 & P1 & R1 & K1 & O1 & W1).
  change (2 ^ 0) with 1 in T1.
  set (v1 := backedOff 0 (snd (cbExecute w))) in *.
  destruct (W1 ltac:(unfold Second in *; lia)) as [F1 V1].
  assert (A1 : statusCode (api v1 (apiCalls v1)) = None)
    by (rewrite P1, C1, <- Nat.add_1_r; apply Hapi; lia).
  (* attempt 1 *)
  rewrite (serve_failed_iteration _ _ _ v1 S1 A1). cbv zeta.
  destruct (failed_iteration_within (0 + 1) v1 S1 A1 ltac:(lia) R1 ltac:(lia))
    as (N2 & T2 & S2 & C2 & P2 & R2 & K2 & O2 & W2).
  change (2 ^ (0 + 1)) with 2 in T2.
  set (v2 := backedOff (0 + 1) (snd (cbExecute v1))) in *.
  rewrite P1, C1, <- Nat.add_1_r in N2. rewrite O1, K1 in T2.
  destruct (W2 ltac:(unfold Second in *; lia)) as [F2 V2].
  assert (A2 : statusCode (api v2 (apiCalls v2)) = None).
  { rewrite P2, P1, C2, C1.
    replace (S (S (apiCalls w))) with (apiCalls w + 2)%nat by lia.
    apply Hapi; lia. }
  (* attempt 2 *)
  rewrite (serve_failed_iteration _ _ _ v2 S2 A2). cbv zeta.
  destruct (failed_iteration_within (0 + 1 + 1) v2 S2 A2 ltac:(lia) R2
              ltac:(lia))
    as (N3 & T3 & S3 & C3 & P3 & R3 & K3 & O3 & W3).
  change (2 ^ (0 + 1 + 1)) with 4 in T3.
  set (v3 := backedOff (0 + 1 + 1) (snd (cbExecute v2))) in *.
  rewrite P2, P1, C2, C1 in N3.
  replace (S (S (apiCalls w))) with (apiCalls w + 2)%nat in N3 by lia.
  rewrite O2, O1, K2, K1 in T3.
  destruct (W3 ltac:(unfold Second in *; lia)) as [F3 V3].
  assert (A3 : statusCode (api v3 (apiCalls v3)) = None).
  { rewrite P3, P2, P1, C3, C2, C1.
    replace (S (S (S (apiCalls w)))) with (apiCalls w + 3)%nat by lia.
    apply Hapi; lia. }
  (* attempt 3 trips the breaker *)
  rewrite (serve_failed_iteration _ _ _ v3 S3 A3). cbv zeta.
  destruct (closed_call_frame v3 S3) as (_ & _ & _ & _ & _ & K4 & O4 & N4).
  rewrite P3, P2, P1, C3, C2, C1 in N4.
  replace (S (S (S (apiCalls w)))) with (apiCalls w + 3)%nat in N4 by lia.
  destruct (closed_failure_trip v3 S3 A3 ltac:(lia))
    as (S4 & X4 & C4 & _ & R4 & _ & _).
  { rewrite N4, V3, V2, V1. unfold Second in *. lia. }
  set (w4 := snd (cbExecute v3)) in *.
  assert (Hr4 : validRandom w4) by (intros k; rewrite R4; apply R3).
  destruct (exponentialBackoff_range (0 + 1 + 1 + 1) _ (Hr4 (draws w4)))
    as (D0 & Dup & _).
  specialize (Dup ltac:(lia)).
  change (computedDelay (0 + 1 + 1 + 1)) with (8 * Second) in Dup.
  set (v4 := backedOff (0 + 1 + 1 + 1) w4) in *.
  (* attempt 4 is rejected *)
  assert (HE : cbExecute v4 = ((None, Some ErrOpenState), v4)).
  { apply cbExecute_open; [exact S4|].
    change (cb v4) with (cb w4). rewrite X4.
    unfold v4, backedOff. cbn [sleep randFloat64 snd now naps overshoot].
    rewrite K4, O4, K3, O3, K2, O2, K1, O1.
    unfold settings, Second in *. cbn [Timeout] in *. lia. }
  rewrite (retryLoop_failure cbExecute randFloat64 sleep incMetric 0 _ _
             v4 _ ErrOpenState v4 (rnd v4 (draws v4))
             (snd (randFloat64 v4)) HE eq_refl eq_refl).
  cbn [retryLoop snd incMetric setBreaker apiCalls cb sleep randFloat64].
  change (apiCalls v4) with (apiCalls w4). change (cb v4) with (cb w4).
  split; [rewrite C4, C3, C2, C1; lia|]. split; [exact S4|].
  do 5 eexists. reflexivity.
Qed.

Lemma first_request_of_an_outage_witness :
  let '(tr, w') := serveAPI lateOutage in
  apiCalls w' = (apiCalls lateOutage + 4)%nat
  /\ state (cb w') = StateOpen
  /\ exists d0 d1 d2 d3 d4,
      tr = [CallExecute 0 opFailure; TimeSleep d0;
            CallExecute 1 opFailure; TimeSleep d1;
            CallExecute 2 opFailure; TimeSleep d2;
            CallExecute 3 opFailure; TimeSleep d3;
            CallExecute 4 (None, Some ErrOpenState); TimeSleep d4;
            IncRequestCount "failure";
            HttpError "Service Unavailable" 503].
Proof.
  refine (first_request_of_an_outage lateOutage _ _ _ _ _ _).
  - reflexivity.
  - reflexivity.
  - intros k. split; [split; [discriminate | reflexivity]|].
    split; [discriminate | intros _; reflexivity].
  - intros k _. reflexivity.
  - vm_compute. reflexivity.
  - vm_compute. reflexivity.
Defined.

(** ** The backoff is strictly below the delay *)

(** Rounding to nearest moves the significand by at most half of the
    dropped power of two. *)
Lemma round_sig_near (a sh : Z) :
  0 <= a -> 0 < sh ->
  Float64.round_sig a sh * 2 ^ sh <= a + 2 ^ (sh - 1).
Proof.
  intros Ha Hsh. unfold Float64.round_sig.
  replace (sh <=? 0) with false by (symmetry; apply Z.leb_gt; lia).
  assert (Hp : 0 < 2 ^ sh) by (apply Z.pow_pos_nonneg; lia).
  assert (Hh : 2 ^ sh = 2 * 2 ^ (sh - 1)).
  { replace sh with (1 + (sh - 1)) at 1 by lia.
    rewrite Z.pow_add_r by lia. reflexivity. }
  pose proof (Z.div_mod a (2 ^ sh) ltac:(lia)) as Hdm.
  pose proof (Z.mod_pos_bound a (2 ^ sh) Hp) as Hr.
  destruct ((2 ^ (sh - 1) <? a mod 2 ^ sh)
            || ((2 ^ (sh - 1) =? a mod 2 ^ sh) && Z.odd (a / 2 ^ sh)))
    eqn:Hup.
  - assert (2 ^ (sh - 1) <= a mod 2 ^ sh).
    { apply orb_prop in Hup as [Hup|Hup].
      - apply Z.ltb_lt in Hup. lia.
      - apply andb_prop in Hup as [Hup _]. apply Z.eqb_eq in Hup. lia. }
    nia.
  - nia.
Qed.

(** The product of a random number of [[0, 1)] and an integer bound
    [M * 2^E] that is not a power of two: its integer part is strictly
    below the bound. *)
Lemma jitter_strict (r : Float64.t) (M E : Z) :
  Float64.unit_interval r ->
  0 < M < 2 ^ Float64.prec -> 2 ^ Z.log2 M < M ->
  0 <= E -> Z.log2 M + E < Float64.emax ->
  exists q e',
    Float64.mul r (Float64.Fin M E) = Float64.Fin q e'
    /\ 0 <= Float64.trunc q e' < M * 2 ^ E.
Proof.
  intros Hr HM Hnp HE Hov.
  destruct (Float64Facts.jitter_bound r M E Hr HM
              ltac:(unfold Float64.emin; lia) Hov)
    as (q & e' & Hmul & H0 & _ & _).
  exists q, e'. split; [exact Hmul|]. split; [exact H0|].
  destruct r as [m e| | |]; try contradiction.
  destruct Hr as (Hm & He & Hlt). cbn [Float64.mul] in Hmul.
  assert (HpE : 0 < 2 ^ E) by (apply Z.pow_pos_nonneg; lia).
  destruct (Z.eq_dec m 0) as [->|Hm0].
  { rewrite Z.mul_0_l in Hmul.
    destruct (Float64Facts.round_zero (e + E)) as [e0 He0].
    rewrite He0 in Hmul. injection Hmul as <- <-.
    rewrite trunc_zero. nia. }
  specialize (Hlt ltac:(lia)).
  assert (Hs : 0 < - e).
  { destruct (Z_lt_le_dec 0 (- e)) as [H|H]; [exact H|].
    assert (2 ^ (- e) <= 1); [|lia].
    destruct (Z.eq_dec e 0) as [->|]; [cbn; lia|].
    rewrite Z.pow_neg_r; lia. }
  set (a := m * M) in *.
  assert (Ha : 0 < a) by (unfold a; nia).
  assert (Hale : a <= M * 2 ^ (- e) - M) by (unfold a; nia).
  (* the excess of the product *)
  set (sh := Float64.excess a (e + E)) in *.
  assert (Hlog : Z.log2 a <= Z.log2 m + Z.log2 M + 1)
    by (unfold a; apply Z.log2_mul_above; lia).
  assert (Hlm : Z.log2 m < Float64.prec) by (apply Z.log2_lt_pow2; lia).
  assert (Hsh : 0 <= sh <= Z.log2 M + 1).
  { pose proof (Z.log2_nonneg M).
    unfold sh, Float64.excess. rewrite Z.abs_eq by lia.
    unfold Float64.prec, Float64.emin in *. lia. }
  assert (Hshs : sh <= - e).
  { unfold sh, Float64.excess. rewrite Z.abs_eq by lia.
    assert (Z.log2 a < Float64.prec + - e).
    { apply Z.log2_lt_pow2; [lia|].
      rewrite Z.pow_add_r by (unfold Float64.prec; lia).
      assert (0 < 2 ^ (- e)) by (apply Z.pow_pos_nonneg; lia). nia. }
    unfold Float64.prec, Float64.emin in *. lia. }
  (* the rounded significand *)
  unfold Float64.round in Hmul. fold sh in Hmul.
  rewrite Z.abs_eq, Z.sgn_pos, Z.mul_1_l in Hmul by lia.
  destruct ((0 <? Float64.round_sig a sh)
            && (Float64.emax <=? Z.log2 (Float64.round_sig a sh)
                                 + (e + E + sh))) eqn:Hovf.
  { destruct (a <? 0); discriminate. }
  injection Hmul as <- <-.
  set (q := Float64.round_sig a sh) in *.
  assert (Hq : q * 2 ^ sh < M * 2 ^ (- e)).
  { destruct (Z.eq_dec sh 0) as [Hz|Hnz].
    - unfold q, Float64.round_sig. rewrite Hz. cbn [Z.leb Z.compare].
      rewrite Z.pow_0_r. lia.
    - pose proof (round_sig_near a sh ltac:(lia) ltac:(lia)) as Hnear.
      fold q in Hnear.
      assert (2 ^ (sh - 1) <= 2 ^ Z.log2 M)
        by (apply Z.pow_le_mono_r; lia).
      lia. }
  set (d := - e - sh).
  assert (Hd : 0 <= d) by (unfold d; lia).
  assert (Hpd : 0 < 2 ^ d) by (apply Z.pow_pos_nonneg; lia).
  assert (Hpsh : 0 < 2 ^ sh) by (apply Z.pow_pos_nonneg; lia).
  assert (Hq0 : 0 <= q).
  { assert (a / 2 ^ sh <= q <= a / 2 ^ sh + 1).
    { apply Float64Facts.round_sig_bound; try lia.
      pose proof (Z.mul_succ_div_gt a (2 ^ sh) Hpsh). lia. }
    assert (0 <= a / 2 ^ sh) by (apply Z.div_pos; lia). lia. }
  assert (Hqd : q < M * 2 ^ d).
  { replace (- e) with (d + sh) in Hq by (unfold d; lia).
    rewrite Z.pow_add_r in Hq by lia. nia. }
  replace (e + E + sh) with (E - d) in * by (unfold d; lia).
  unfold Float64.trunc in *. destruct (0 <=? E - d) eqn:Hsign.
  - apply Z.leb_le in Hsign.
    assert (Hp : 0 < 2 ^ (E - d)) by (apply Z.pow_pos_nonneg; lia).
    assert (Heq : M * 2 ^ E = M * 2 ^ d * 2 ^ (E - d)).
    { rewrite <- Z.mul_assoc, <- Z.pow_add_r by lia. do 2 f_equal. lia. }
    rewrite Heq. apply Z.mul_lt_mono_pos_r; assumption.
  - apply Z.leb_gt in Hsign.
    assert (Hp : 0 < 2 ^ (- (E - d))) by (apply Z.pow_pos_nonneg; lia).
    rewrite Z.quot_div_nonneg in * by lia.
    apply Z.div_lt_upper_bound; [lia|].
    rewrite (Z.mul_comm _ (M * 2 ^ E)), <- Z.mul_assoc, <- Z.pow_add_r
      by lia.
    replace (E + - (E - d)) with d by lia. lia.
Qed.

(** X12: for a non-negative attempt the backoff is strictly below the
    delay [min(1s * 2^attempt, 30s)]: rounding the product to a float64
    never brings it up to the delay itself, so the sleep is in
    [[0, delay)]. *)
Theorem exponentialBackoff_below_delay (attempt : Z) (r : Float64.t) :
  0 <= attempt ->
  Float64.unit_interval r ->
  0 <= exponentialBackoff attempt r < computedDelay attempt.
Proof.
  intros Ha Hr. unfold exponentialBackoff. cbv zeta.
  rewrite cappedBackoff_value, computedDelay_value by exact Ha.
  destruct (5 <=? attempt) eqn:H5.
  - destruct (jitter_strict r (30 * Second) 0 Hr)
      as (q & e' & -> & Hq);
      [split; reflexivity | reflexivity | discriminate | reflexivity |].
    rewrite Z.pow_0_r, Z.mul_1_r in Hq.
    rewrite to_int64_fits by lia. exact Hq.
  - apply Z.leb_gt in H5.
    replace (Float64.emin <=? attempt) with true
      by (symmetry; apply Z.leb_le; unfold Float64.emin; lia).
    destruct (jitter_strict r Second attempt Hr)
      as (q & e' & -> & Hq);
      [split; reflexivity | reflexivity | exact Ha
       | change (Z.log2 Second) with 29; unfold Float64.emax; lia |].
    assert (2 ^ attempt <= 2 ^ 4) by (apply Z.pow_le_mono_r; lia).
    change (2 ^ 4) with 16 in *.
    rewrite to_int64_fits by (unfold Second in *; lia). exact Hq.
Qed.

Lemma exponentialBackoff_below_delay_witness :
  0 <= exponentialBackoff 4 (Float64.Fin (2 ^ 53 - 1) (-53))
  < computedDelay 4.
Proof.
  refine (exponentialBackoff_below_delay 4 (Float64.Fin (2 ^ 53 - 1) (-53))
            _ _).
  - discriminate.
  - split; [split; [discriminate | reflexivity]|].
    split; [discriminate | intros _; reflexivity].
Defined.

(** ** What a request costs *)

(** One call of [cb.Execute] either leaves the downstream API alone and
    takes no time, or calls it once and takes the time of that call. *)
Lemma Execute_cost (st : Settings) (w : World) :
  let w' := snd (Execute st request w) in
  rnd w' = rnd w /\ api w' = api w /\ draws w' = draws w
  /\ naps w' = naps w /\ overshoot w' = overshoot w
  /\ ((apiCalls w' = apiCalls w /\ now w' = now w)
      \/ (apiCalls w' = S (apiCalls w)
          /\ now w' = now w + Z.max 0 (latency (api w (apiCalls w))))).
Proof.
  destruct w as [t0 e b calls dr np a r ov].
  unfold Execute, request, callExternalAPI, setBreaker. simpl.
  destruct (beforeRequest st t0 b e) as [[adm b1] e1].
  destruct adm as [gen|err]; simpl.
  - destruct (statusCode (a calls)); simpl;
      match goal with |- context [afterRequest ?s ?g ?x ?t ?bb ?ee] =>
        destruct (afterRequest s g x t bb ee) as [b2 e2] end; simpl;
      repeat split; auto.
  - repeat split; auto.
Qed.

Lemma latencies_add (script : nat -> ApiReply) (c a b : nat) :
  latencies script c (a + b)
  = latencies script c a + latencies script (c + a) b.
Proof.
  induction b as [|b IH].
  - rewrite Nat.add_0_r. cbn. lia.
  - rewrite Nat.add_succ_r. cbn [latencies]. rewrite IH, Nat.add_assoc. lia.
Qed.

(** The loop in the process: what it draws, calls and how long it takes. *)
Lemma loop_accounting (n : nat) : forall (i : Z) (r0 : ExecResult) (w : World),
  validRandom w ->
  let '(_, tr, w') :=
    retryLoop cbExecute randFloat64 sleep incMetric n i r0 w in
  rnd w' = rnd w /\ api w' = api w
  /\ draws w' = (draws w + List.length (sleeps tr))%nat
  /\ naps w' = (naps w + List.length (sleeps tr))%nat
  /\ overshoot w' = overshoot w
  /\ exists k,
      (k <= count isCallExecute tr)%nat
      /\ apiCalls w' = (apiCalls w + k)%nat
      /\ now w' = now w + totalSleep tr + latencies (api w) (apiCalls w) k
                  + overshoots w (List.length (sleeps tr)).
Proof.
  induction n as [|n IH]; intros i r0 w Hr.
  - cbn. repeat split; auto. exists 0%nat. cbn. repeat split; lia.
  - cbn [retryLoop].
    destruct (Execute_cost settings w) as (R1 & A1 & D1 & P1 & O1 & Hcost).
    fold cbExecute in R1, A1, D1, P1, O1, Hcost.
    cbv zeta in R1, A1, D1, P1, O1, Hcost.
    destruct (cbExecute w) as [res w1].
    cbn [snd] in R1, A1, D1, P1, O1, Hcost.
    assert (Hk1 : exists j, (j <= 1)%nat
                  /\ apiCalls w1 = (apiCalls w + j)%nat
                  /\ now w1 = now w + latencies (api w) (apiCalls w) j).
    { destruct Hcost as [[Hc Hn]|[Hc Hn]].
      - exists 0%nat. cbn. repeat split; lia.
      - exists 1%nat. cbn. rewrite Nat.add_0_r. repeat split; lia. }
    destruct Hk1 as (j & Hj & Hc1 & Hn1).
    destruct (snd res) as [e|].
    + cbn [randFloat64].
      assert (Hr1 : validRandom w1) by (intros k; rewrite R1; apply Hr).
      destruct (exponentialBackoff_range i _ (Hr1 (draws w1)))
        as (D0 & _ & _).
      set (d := exponentialBackoff i (rnd w1 (draws w1))) in *.
      set (v := sleep d _).
      specialize (IH (i + 1) res v Hr1).
      destruct (retryLoop cbExecute randFloat64 sleep incMetric n (i + 1)
                          res v) as [[res' tr] w'].
      destruct IH as (R2 & A2 & D2 & P2 & O2 & k & Hk & Hc2 & Hn2).
      change (rnd v) with (rnd w1) in R2. change (api v) with (api w1) in *.
      change (draws v) with (S (draws w1)) in D2.
      change (naps v) with (S (naps w1)) in P2.
      change (overshoot v) with (overshoot w1) in O2.
      change (apiCalls v) with (apiCalls w1) in *.
      change (now v)
        with (now w1 + Z.max 0 d + Z.max 0 (overshoot w1 (naps w1))) in Hn2.
      assert (Hshift : overshoots w (S (List.length (sleeps tr)))
                       = Z.max 0 (overshoot w (naps w))
                         + overshoots v (List.length (sleeps tr))).
      { apply overshoots_shift.
        - change (overshoot v) with (overshoot w1). exact O1.
        - change (naps v) with (S (naps w1)). now rewrite P1. }
      split; [congruence|]. split; [congruence|].
      split; [cbn [sleeps List.length]; lia|].
      split; [cbn [sleeps List.length]; lia|].
      split; [congruence|].
      exists (j + k)%nat.
      split; [unfold count in *; cbn; lia|]. split; [lia|].
      cbn [sleeps List.length].
      rewrite latencies_add, Hn2, A1, Hc1, Hn1, Hshift, O1, P1.
      unfold totalSleep. cbn [sleeps fold_right]. lia.
    + cbn [incMetric setBreaker rnd api draws naps overshoot apiCalls now
           sleeps List.length].
      split; [exact R1|]. split; [exact A1|]. split; [lia|].
      split; [lia|]. split; [exact O1|].
      exists j. split; [unfold count; cbn; lia|]. split; [exact Hc1|].
      unfold totalSleep. cbn. lia.
Qed.

(** X13: what a request costs, in every state of the breaker: at most five
    calls of the downstream API, one random number per sleep, and a time
    that is at least its sleeps plus the latencies of the downstream calls
    it made. *)
Theorem request_accounting (w : World) :
  validRandom w ->
  let '(tr, w') := serveAPI w in
  exists k,
    (k <= 5)%nat
    /\ apiCalls w' = (apiCalls w + k)%nat
    /\ draws w' = (draws w + List.length (sleeps tr))%nat
    /\ naps w' = (naps w + List.length (sleeps tr))%nat
    /\ now w + totalSleep tr + latencies (api w) (apiCalls w) k <= now w'
    /\ rnd w' = rnd w /\ api w' = api w.
Proof.
  intros Hr. unfold serveAPI, handler, retry.
  pose proof (loop_accounting (Z.to_nat attempts) 0 (None, None) w Hr) as H.
  pose proof (retryLoop_run cbExecute randFloat64 sleep incMetric
                (Z.to_nat attempts) 0 (None, None) w) as Hrun.
  destruct (retryLoop _ _ _ _ _ _ _ _) as [[res tr] w'].
  change (Z.to_nat attempts) with 5%nat in Hrun.
  destruct (run_counts _ _ _ _ _ Hrun) as (Hcnt & _).
  destruct H as (R & A & D & P & O & k & Hk & Hc & Hn).
  pose proof (overshoots_nonneg w (List.length (sleeps tr))) as Hov.
  destruct (snd res); exists k;
    cbn [incMetric setBreaker rnd api draws naps apiCalls now];
    unfold totalSleep in *; rewrite sleeps_app, app_nil_r;
    repeat split; auto; lia.
Qed.

Lemma request_accounting_witness :
  let '(tr, w') := serveAPI lateOutage in
  exists k,
    (k <= 5)%nat
    /\ apiCalls w' = (apiCalls lateOutage + k)%nat
    /\ draws w' = (draws lateOutage + List.length (sleeps tr))%nat
    /\ naps w' = (naps lateOutage + List.length (sleeps tr))%nat
    /\ now lateOutage + totalSleep tr
       + latencies (api lateOutage) (apiCalls lateOutage) k <= now w'
    /\ rnd w' = rnd lateOutage /\ api w' = api lateOutage.
Proof.
  refine (request_accounting lateOutage _).
  intros k. split; [split; [discriminate | reflexivity]|].
  split; [discriminate | intros _; reflexivity].
Defined.

